(** * generate_tree.py: a directory-tree printer

    A shallow embedding of [src/generate_tree.py] and of the pieces of the
    Python library it calls ([os.walk], [os.path.join], [os.path.basename],
    [os.path.abspath], [str.replace], [str.count], [print]), on a POSIX
    system ([os.sep] is ["/"]).

    Strings are the UTF-8 bytes that reach standard output: each of the
    box-drawing characters of the source takes three bytes, so the
    indentation unit is six bytes long.  Searching, replacing and counting
    give the same result on UTF-8 bytes as on code points. *)

From Stdlib Require Import String Ascii List Bool Arith ZArith Lia Permutation.
Import ListNotations.

Open Scope string_scope.
Open Scope list_scope.

Notation "a +++ b" := (String.append a b) (at level 60, right associativity).

(** ** Python strings *)

Module PyStr.

(** [s * n] *)
Fixpoint mul (s : string) (n : nat) : string :=
  match n with
  | O => ""
  | S k => s +++ mul s k
  end.

(** [len(s)]: the number of code points, that is of bytes that do not
    continue a UTF-8 sequence. *)
Definition continues (a : ascii) : bool :=
  match a with
  | Ascii _ _ _ _ _ _ b6 b7 => (b7 && negb b6)%bool
  end.

Fixpoint len (s : string) : nat :=
  match s with
  | EmptyString => O
  | String a s' => (if continues a then 0 else 1) + len s'
  end.

(** [s.startswith(c)] and [s.endswith(c)] for a one-character [c]. *)
Definition startswith (s : string) (c : ascii) : bool :=
  match s with
  | String a _ => Ascii.eqb a c
  | EmptyString => false
  end.

Fixpoint endswith (s : string) (c : ascii) : bool :=
  match s with
  | EmptyString => false
  | String a EmptyString => Ascii.eqb a c
  | String _ s' => endswith s' c
  end.

(** [s.count(c)] for a one-character [c]: occurrences cannot overlap, so
    this is the number of characters equal to [c]. *)
Fixpoint count (s : string) (c : ascii) : nat :=
  match s with
  | EmptyString => O
  | String a s' => (if Ascii.eqb a c then 1 else 0) + count s' c
  end.

(** [s.replace(old, new)]: every occurrence of [old], found left to right
    without overlap, becomes [new].  [skip] is the number of characters of
    the occurrence just replaced that are still to be passed over. *)
Fixpoint replace_from (old new : string) (skip : nat) (s : string) : string :=
  match s with
  | EmptyString => ""
  | String a s' =>
      match skip with
      | S k => replace_from old new k s'
      | O =>
          if String.prefix old s
          then new +++ replace_from old new (String.length old - 1) s'
          else String a (replace_from old new 0 s')
      end
  end.

(** With an empty [old], Python puts [new] before every character and at
    the end. *)
Fixpoint intersperse (new s : string) : string :=
  match s with
  | EmptyString => new
  | String a s' => new +++ String a (intersperse new s')
  end.

Definition replace (s old new : string) : string :=
  match old with
  | EmptyString => intersperse new s
  | _ => replace_from old new 0 s
  end.

(** [s.rfind(c)] for a one-character [c]: the last index of [c], or -1. *)
Fixpoint rfind (s : string) (c : ascii) : Z :=
  match s with
  | EmptyString => (-1)%Z
  | String a s' =>
      let r := rfind s' c in
      if (0 <=? r)%Z then (r + 1)%Z
      else if Ascii.eqb a c then 0%Z else (-1)%Z
  end.

(** [s[i:]] for [i >= 0]. *)
Fixpoint drop (i : nat) (s : string) : string :=
  match i, s with
  | S k, String _ s' => drop k s'
  | _, _ => s
  end.

(** [s.split(c)] for a one-character [c]; the result is never empty. *)
Fixpoint split (s : string) (c : ascii) : list string :=
  match s with
  | EmptyString => [""]
  | String a s' =>
      if Ascii.eqb a c then "" :: split s' c
      else match split s' c with
           | w :: ws => String a w :: ws
           | [] => [String a ""]
           end
  end.

(** [sep.join(parts)] *)
Fixpoint join (sep : string) (parts : list string) : string :=
  match parts with
  | [] => ""
  | [p] => p
  | p :: ps => p +++ sep +++ join sep ps
  end.

End PyStr.

(** ** posixpath *)

Module PosixPath.

Definition sep_char : ascii := "/"%char.
Definition sep : string := "/".

(** [os.path.join(a, b)] *)
Definition join (a b : string) : string :=
  if PyStr.startswith b sep_char then b
  else if (String.eqb a "" || PyStr.endswith a sep_char)%bool then a +++ b
  else a +++ sep +++ b.

(** [os.path.basename(p)]: [i = p.rfind('/') + 1; return p[i:]] *)
Definition basename (p : string) : string :=
  PyStr.drop (Z.to_nat (PyStr.rfind p sep_char + 1)) p.

(** The loop of [os.path.normpath] over the components; [new_comps] is
    kept reversed, so that its last element is at the head. *)
Fixpoint norm_comps (initial_slashes : nat) (comps new_comps : list string)
  : list string :=
  match comps with
  | [] => rev new_comps
  | comp :: rest =>
      if (String.eqb comp "" || String.eqb comp ".")%bool
      then norm_comps initial_slashes rest new_comps
      else
        let last_is_dotdot :=
          match new_comps with
          | l :: _ => String.eqb l ".."
          | [] => false
          end in
        let empty := match new_comps with [] => true | _ => false end in
        if (negb (String.eqb comp "..")
            || (Nat.eqb initial_slashes 0 && empty)
            || last_is_dotdot)%bool
        then norm_comps initial_slashes rest (comp :: new_comps)
        else norm_comps initial_slashes rest (tl new_comps)
  end.

(** [os.path.normpath(path)] *)
Definition normpath (path : string) : string :=
  if String.eqb path "" then "."
  else
    let initial_slashes :=
      if PyStr.startswith path sep_char
      then if (String.prefix "//" path && negb (String.prefix "///" path))%bool
           then 2 else 1
      else 0 in
    let comps := norm_comps initial_slashes (PyStr.split path sep_char) [] in
    let joined := PyStr.join sep comps in
    let res := PyStr.mul sep initial_slashes +++ joined in
    if String.eqb res "" then "." else res.

(** [os.path.abspath(path)], the current directory being [cwd]. *)
Definition abspath (cwd path : string) : string :=
  normpath (if PyStr.startswith path sep_char then path else join cwd path).

End PosixPath.

(** ** The file system seen by the walk

    [os.walk] learns three things about an object: whether [scandir] can
    list it, whether [entry.is_dir()] holds (a test that follows symbolic
    links) and whether [os.path.islink] holds.  A [node] records exactly
    that: [File] is anything that is not a directory, [DirLink target] a
    symbolic link to a directory, the one reached from the start path
    through the names [target] (so a link may point to a directory above
    itself), and [Dir readable es] a real directory holding the entries
    [es], the flag telling whether listing it succeeds.  Names inside one
    directory are distinct, and each name travels with the object it
    names. *)

#[warnings="-register-all"]
Inductive node : Type :=
| File : node
| DirLink : list string -> node
| Dir : bool -> list (string * node) -> node.

Definition entries : Type := list (string * node).

Inductive oserror : Type :=
| FileNotFoundError
| NotADirectoryError
| PermissionError.

(** The outcome of [os.scandir(path)]. *)
Inductive listing : Type :=
| Listed (es : entries)
| Failed (e : oserror).

(** [entry.is_dir()] and [os.path.islink]. *)
Definition is_dir (n : node) : bool :=
  match n with
  | File => false
  | DirLink _ | Dir _ _ => true
  end.

Definition islink (n : node) : bool :=
  match n with
  | DirLink _ => true
  | File | Dir _ _ => false
  end.

(** What the program can touch: the current directory, the tree found at
    the start path (what [os.scandir(startpath)] gives), and the two output
    streams. *)
Record world : Type := mkWorld {
  w_cwd : string;
  w_fs : listing;
  w_stdout : list string;
  w_stderr : list string
}.

(** [print(line)] *)
Definition print (line : string) (w : world) : world :=
  {| w_cwd := w_cwd w;
     w_fs := w_fs w;
     w_stdout := w_stdout w ++ [line];
     w_stderr := w_stderr w |}.

Definition print_all (lines : list string) (w : world) : world :=
  fold_left (fun acc line => print line acc) lines w.

(** ** generate_tree *)

Definition exclude_dirs : list string :=
  ["modules"; "node_modules"; ".git"; "__pycache__"; ".vscode"; "dist"; "build"].

(** [d in exclude_dirs] *)
Definition in_exclude_dirs (d : string) : bool :=
  existsb (String.eqb d) exclude_dirs.

Definition bar : string := "│   ".
Definition tee : string := "├── ".
Definition elbow : string := "└── ".

(** [root.replace(startpath, '').count(os.sep)] *)
Definition level (startpath root : string) : nat :=
  PyStr.count (PyStr.replace root startpath "") PosixPath.sep_char.

(** [enumerate(files)] *)
Definition enumerate {A : Type} (l : list A) : list (Z * A) :=
  combine (map Z.of_nat (seq 0 (length l))) l.

(** What a printed line is about: the directory reached from the start
    path through the names [rel], or the file [name] inside it.  This is
    bookkeeping of the model; the program prints the text only. *)
Inductive owner : Type :=
| DirOf (rel : list string)
| FileOf (rel : list string) (name : string).

(** Lines 27 and 31: the line printed for the directory [root]. *)
Definition dir_line (startpath root : string) : string :=
  let indent := PyStr.mul bar (level startpath root) in
  indent +++ tee +++ PosixPath.basename root +++ "/".

(** Lines 34, 36 and 37: the line printed for the file [f], found at index
    [i] of a list of [n] files. *)
Definition file_line (startpath root : string) (n : nat) (i : Z) (f : string)
  : string :=
  let sub_indent := PyStr.mul bar (level startpath root + 1) in
  let connector := if (i =? Z.of_nat n - 1)%Z then elbow else tee in
  sub_indent +++ connector +++ f.

(** The body of the [for] loop, source lines 23-37, for the triple
    [(root, dirs, files)] that [os.walk] yielded.  It returns the content
    of the list object [dirs] after the slice assignment of line 23 (the
    object is shared with [os.walk], which reads it again when the
    generator is resumed) and the lines it printed, in order. *)
Definition loop_body (startpath : string) (rel : list string) (root : string)
    (dirs : entries) (files : list string)
  : entries * list (owner * string) :=
  let dirs := filter (fun d => negb (in_exclude_dirs (fst d))) dirs in
  let printed_dir :=
    if String.eqb root startpath then []
    else [(DirOf rel, dir_line startpath root)] in
  let printed_files :=
    map (fun '(i, f) => (FileOf rel f, file_line startpath root (length files) i f))
        (enumerate files) in
  (dirs, printed_dir ++ printed_files).

(** ** os.walk(top), with topdown=True and followlinks=False

    The generator of the Python library, for the arguments that
    [generate_tree] leaves at their defaults:
<<
    stack = [top]
    while stack:
        top = stack.pop()
        dirs = []; nondirs = []
        try:
            scandir_it = scandir(top)
        except OSError as error:
            if onerror is not None:
                onerror(error)
            continue
        for entry in scandir_it:
            if entry.is_dir(): dirs.append(entry.name)
            else: nondirs.append(entry.name)
        yield top, dirs, nondirs
        for dirname in reversed(dirs):
            new_path = join(top, dirname)
            if not islink(new_path):
                stack.append(new_path)
>>
    Here the head of the list is the top of the stack, every path comes
    with what [os.scandir] finds there, and with the names that lead to it
    from the start path ([f_rel], bookkeeping). *)
Record frame : Type := mkFrame {
  f_rel : list string;
  f_top : string;
  f_ls : listing
}.

(** [os.scandir(top)] for a path free of NUL characters ([os_scandir]
    below takes any string); the empty path names nothing. *)
Definition scandir (fr : frame) : listing :=
  if String.eqb (f_top fr) "" then Failed FileNotFoundError else f_ls fr.

(** One turn of the [while stack] loop, as seen from outside. *)
Record iteration : Type := mkIteration {
  it_rel : list string;
  it_top : string;
  it_found : listing;
  it_prints : list (owner * string)
}.

Record state : Type := mkState {
  st_world : world;
  st_stack : list frame;
  st_trace : list iteration
}.

(** [dirs] and [nondirs] as [os.walk] collects them from the entries. *)
Definition walk_dirs (es : entries) : entries :=
  filter (fun d => is_dir (snd d)) es.

Definition walk_nondirs (es : entries) : list string :=
  map fst (filter (fun d => negb (is_dir (snd d))) es).

(** [new_path = join(top, dirname)], pushed unless [islink(new_path)]; the
    frame holds what listing [new_path] will give. *)
Definition push_dir (rel : list string) (top : string) (d : string * node)
  : list frame :=
  let new_path := PosixPath.join top (fst d) in
  match snd d with
  | DirLink _ => []
  | Dir readable es =>
      [mkFrame (rel ++ [fst d]) new_path
               (if readable then Listed es else Failed PermissionError)]
  | File => [mkFrame (rel ++ [fst d]) new_path (Failed NotADirectoryError)]
  end.

(** What a turn of the loop, and the whole loop, can come to. *)
Inductive turn : Type :=
| Exhausted
| Resumed (st : state)
| Raised (e : oserror) (st : state).

Inductive result : Type :=
| OutOfFuel
| Returned (st : state)
| Propagated (e : oserror) (st : state).

(** The [onerror] argument of [os.walk]: [None], or a function called with
    the error, which may itself raise. *)
Definition handler : Type := option (oserror -> option oserror).

(** One turn of [while stack]: pop a path and list it.  An [OSError] is
    passed to [onerror] if there is one, and the loop continues.
    Otherwise the triple is yielded, the body of the [for] loop of
    [generate_tree] runs, and on resumption the sub-directories left in
    [dirs] are pushed, so that the first of them is popped next.
    [Exhausted] when the stack is empty: the generator is finished. *)
Definition walk_step (onerror : handler) (startpath : string) (st : state) : turn :=
  match st_stack st with
  | [] => Exhausted
  | fr :: stack =>
      match scandir fr with
      | Failed e =>
          let st' :=
            mkState (st_world st) stack
                    (st_trace st ++ [mkIteration (f_rel fr) (f_top fr) (Failed e) []]) in
          match onerror with
          | None => Resumed st'
          | Some f =>
              match f e with
              | None => Resumed st'
              | Some e' => Raised e' st'
              end
          end
      | Listed es =>
          let '(dirs, printed) :=
            loop_body startpath (f_rel fr) (f_top fr) (walk_dirs es) (walk_nondirs es) in
          Resumed (mkState (print_all (map snd printed) (st_world st))
                           (flat_map (push_dir (f_rel fr) (f_top fr)) dirs ++ stack)
                           (st_trace st ++ [mkIteration (f_rel fr) (f_top fr) (Listed es) printed]))
      end
  end.

(** The [for] loop of line 21, [for root, dirs, files in os.walk(startpath)]:
    no [onerror] is given.  It is run for at most [fuel] turns. *)
Fixpoint walk_loop (startpath : string) (fuel : nat) (st : state) : result :=
  match walk_step None startpath st with
  | Exhausted => Returned st
  | Raised e st' => Propagated e st'
  | Resumed st' =>
      match fuel with
      | O => OutOfFuel
      | S k => walk_loop startpath k st'
      end
  end.

(** The header of line 18: [basename(abspath(startpath)) or startpath]. *)
Definition header (cwd startpath : string) : string :=
  let base := PosixPath.basename (PosixPath.abspath cwd startpath) in
  "Project Structure: " +++ (if String.eqb base "" then startpath else base).

Definition separator : string := PyStr.mul "=" 40.

(** The state in which the [for] loop starts. *)
Definition start (startpath : string) (w : world) : state :=
  mkState (print separator (print (header (w_cwd w) startpath) w))
          [mkFrame [] startpath (w_fs w)]
          [].

Definition generate_tree_fuel (fuel : nat) (startpath : string) (w : world)
  : result :=
  walk_loop startpath fuel (start startpath w).

(** A run as a relation: the turns of the loop up to the exhaustion of
    the generator or to an exception. *)
Inductive runs (startpath : string) : state -> result -> Prop :=
| runs_done : forall st,
    walk_step None startpath st = Exhausted ->
    runs startpath st (Returned st)
| runs_raise : forall st e st',
    walk_step None startpath st = Raised e st' ->
    runs startpath st (Propagated e st')
| runs_step : forall st st' r,
    walk_step None startpath st = Resumed st' ->
    runs startpath st' r ->
    runs startpath st r.

(** The number of real directories in a tree. *)
Fixpoint ndirs (n : node) : nat :=
  match n with
  | File | DirLink _ => 0
  | Dir _ es => S (list_sum (map (fun d => ndirs (snd d)) es))
  end.

Definition ndirs_in (es : entries) : nat :=
  list_sum (map (fun d => ndirs (snd d)) es).

(** The work a frame stands for: its own turn and one turn for every
    directory below it. *)
Definition frame_size (fr : frame) : nat :=
  match f_ls fr with
  | Listed es => S (ndirs_in es)
  | Failed _ => 1
  end.

Definition pending (stack : list frame) : nat :=
  list_sum (map frame_size stack).

(** [generate_tree(startpath)]: the loop run to its end. *)
Definition generate_tree (startpath : string) (w : world) : state :=
  match generate_tree_fuel (pending (st_stack (start startpath w))) startpath w with
  | Returned st => st
  | OutOfFuel | Propagated _ _ => start startpath w
  end.

(** The script run as a program: [generate_tree('.')]. *)
Definition main (w : world) : state := generate_tree "." w.

(** ** The same walk by recursion on the tree

    [node_trace] lists the turns that the frame of a sub-directory stands
    for, in the order in which the loop takes them; [frame_trace] does so
    for any frame.  The loop is shown below to produce exactly these. *)

Definition failed_turn (rel : list string) (top : string) (e : oserror)
  : iteration :=
  mkIteration rel top (Failed e) [].

Definition listed_turn (startpath : string) (rel : list string) (top : string)
    (es : entries) : iteration :=
  mkIteration rel top (Listed es)
    (snd (loop_body startpath rel top (walk_dirs es) (walk_nondirs es))).

(** The entries the walk goes down into: sub-directories whose name the
    body left in [dirs]. *)
Definition descends (d : string * node) : bool :=
  (is_dir (snd d) && negb (in_exclude_dirs (fst d)))%bool.

Fixpoint node_trace (startpath : string) (rel : list string) (top : string)
    (n : node) : list iteration :=
  match n with
  | DirLink _ => []
  | File => [failed_turn rel top NotADirectoryError]
  | Dir false _ => [failed_turn rel top PermissionError]
  | Dir true es =>
      listed_turn startpath rel top es
      :: flat_map (fun d =>
                     if descends d
                     then node_trace startpath (rel ++ [fst d])
                                     (PosixPath.join top (fst d)) (snd d)
                     else [])
                  es
  end.

Definition frame_trace (startpath : string) (fr : frame) : list iteration :=
  match scandir fr with
  | Failed e => [failed_turn (f_rel fr) (f_top fr) e]
  | Listed es => node_trace startpath (f_rel fr) (f_top fr) (Dir true es)
  end.

(** Everything printed during a run, with what each line is about. *)
Definition printed (tr : list iteration) : list (owner * string) :=
  flat_map it_prints tr.

Definition owner_dir (o : owner) : list string :=
  match o with
  | DirOf rel => rel
  | FileOf rel _ => rel
  end.

(** ** Trees *)

(** A name as a file system gives it: not empty and free of separators. *)
Definition good_name (s : string) : bool :=
  (negb (String.eqb s "") && Nat.eqb (PyStr.count s PosixPath.sep_char) 0)%bool.

Fixpoint good_names (n : node) : bool :=
  match n with
  | File | DirLink _ => true
  | Dir _ es => forallb (fun d => good_name (fst d) && good_names (snd d))%bool es
  end.

Definition good_names_in (es : entries) : bool :=
  forallb (fun d => good_name (fst d) && good_names (snd d))%bool es.

(** No directory of the tree bears an excluded name. *)
Fixpoint unexcluded (n : node) : bool :=
  match n with
  | File | DirLink _ => true
  | Dir _ es =>
      forallb (fun d => (negb (is_dir (snd d)) || negb (in_exclude_dirs (fst d)))
                        && unexcluded (snd d))%bool es
  end.

Definition unexcluded_in (es : entries) : bool :=
  forallb (fun d => (negb (is_dir (snd d)) || negb (in_exclude_dirs (fst d)))
                    && unexcluded (snd d))%bool es.

(** Every directory of the tree can be listed and none is a symbolic
    link. *)
Fixpoint listable (n : node) : bool :=
  match n with
  | File => true
  | DirLink _ => false
  | Dir readable es => (readable && forallb (fun d => listable (snd d)) es)%bool
  end.

Definition listable_in (es : entries) : bool :=
  forallb (fun d => listable (snd d)) es.

(** Every directory and every file of a tree, once each: the entry [name]
    of the directory at [rel], and what lies below it. *)
Fixpoint node_owners (rel : list string) (name : string) (n : node)
  : list owner :=
  match n with
  | File => [FileOf rel name]
  | DirLink _ => [DirOf (rel ++ [name])]
  | Dir _ es =>
      DirOf (rel ++ [name])
      :: flat_map (fun d => node_owners (rel ++ [name]) (fst d) (snd d)) es
  end.

Definition tree_owners (rel : list string) (es : entries) : list owner :=
  flat_map (fun d => node_owners rel (fst d) (snd d)) es.

(** The path [os.walk] builds for the directory reached through [rel]. *)
Definition path_of (startpath : string) (rel : list string) : string :=
  fold_left PosixPath.join rel startpath.

(** The first [n] characters of a string. *)
Fixpoint take (n : nat) (s : string) : string :=
  match n, s with
  | S k, String a s' => String a (take k s')
  | _, _ => ""
  end.

Definition root_frame (sp : string) (w : world) : frame :=
  mkFrame [] sp (w_fs w).

(** A turn prints what the loop body prints for the directory it lists,
    and nothing when the listing fails. *)
Definition turn_ok (sp : string) (it : iteration) : Prop :=
  match it_found it with
  | Listed es =>
      it_prints it
      = snd (loop_body sp (it_rel it) (it_top it) (walk_dirs es) (walk_nondirs es))
  | Failed _ => it_prints it = []
  end.

Definition kept (name : string) : Prop := in_exclude_dirs name = false.

(** ** Sample worlds *)

Definition fresh_world (cwd : string) (ls : listing) : world :=
  mkWorld cwd ls [] [].

(** [build/] is excluded, [lib/] is not; a plain file is called [build]
    further down. *)
Definition tree_with_build : entries :=
  [("build", Dir true [("out.o", File); ("obj", Dir true [("a.o", File)])]);
   ("lib", Dir true [("util.py", File); ("build", File)]);
   ("README.md", File)].


(** A link that leads back to the root of the tree. *)
Definition tree_with_loop : entries :=
  [("src", Dir true [("back", DirLink []); ("main.py", File)])].

(** One sub-directory [src/] holding one file. *)
Definition tree_src_main : entries :=
  [("src", Dir true [("main.go", File)])].

(** One file and nothing else. *)
Definition tree_one_file : entries :=
  [("a.txt", File)].

(** A directory that cannot be listed and a link to a directory. *)
Definition tree_locked_and_link : entries :=
  [("secret", Dir false [("a.txt", File)]);
   ("current", DirLink ["secret"])].

(** Whether a printed line is the line of a directory. *)
Definition about_dir (x : owner * string) : bool :=
  match fst x with
  | DirOf _ => true
  | FileOf _ _ => false
  end.

(** The names of the tree found at the start path are file-system names. *)
Definition listing_good (ls : listing) : bool :=
  match ls with
  | Listed es => good_names_in es
  | Failed _ => true
  end.

(** What the printed lines are about, in the order of printing. *)
Definition owners (tr : list iteration) : list owner :=
  map fst (printed tr).

(** The lines printed below a sub-directory are about that directory and
    about what it holds, once each. *)
Definition owners_match (sp : string) (n : node) : Prop :=
  forall rel name top,
    String.length sp < String.length top ->
    good_names n = true -> unexcluded n = true -> listable n = true ->
    is_dir n = true ->
    Permutation (owners (node_trace sp (rel ++ [name]) top n))
                (node_owners rel name n).

(** ** Order and uniqueness of the turns *)

(** The turn [child] is for the sub-directory [name] that the turn
    [parent] found when it listed its directory: a real directory, not a
    link, whose name the body kept in [dirs]. *)
Definition listed_child (parent child : iteration) : Prop :=
  exists es name readable sub,
    it_found parent = Listed es /\
    In (name, Dir readable sub) es /\
    in_exclude_dirs name = false /\
    it_rel child = it_rel parent ++ [name] /\
    it_top child = PosixPath.join (it_top parent) name /\
    it_found child = (if readable then Listed sub else Failed PermissionError).

(** The same for a path waiting on the stack. *)
Definition pushed_child (parent : iteration) (fr : frame) : Prop :=
  exists es name readable sub,
    it_found parent = Listed es /\
    In (name, Dir readable sub) es /\
    in_exclude_dirs name = false /\
    f_rel fr = it_rel parent ++ [name] /\
    f_top fr = PosixPath.join (it_top parent) name /\
    f_ls fr = (if readable then Listed sub else Failed PermissionError).

(** A top-down sequence of turns: the first is for the start path, any
    other for a sub-directory found by an earlier one. *)
Definition top_down (sp : string) (tr : list iteration) : Prop :=
  forall before it after,
    tr = before ++ it :: after ->
    (before = [] /\ it_rel it = [] /\ it_top it = sp) \/
    (exists parent, In parent before /\ listed_child parent it).

(** What the loop keeps true from turn to turn. *)
Definition walk_invariant (sp : string) (st : state) : Prop :=
  top_down sp (st_trace st) /\
  (forall it es, In it (st_trace st) -> it_found it = Listed es -> it_top it <> "") /\
  (forall fr,
      In fr (st_stack st) ->
      (st_trace st = [] /\ st_stack st = [fr] /\ f_rel fr = [] /\ f_top fr = sp) \/
      (exists parent, In parent (st_trace st) /\ pushed_child parent fr)).

(** Whether the names of a list are pairwise different. *)
Fixpoint nodupb (l : list string) : bool :=
  match l with
  | [] => true
  | x :: l' => (negb (existsb (String.eqb x) l') && nodupb l')%bool
  end.

(** In every directory of the tree the names are pairwise different. *)
Fixpoint distinct_names (n : node) : bool :=
  match n with
  | File | DirLink _ => true
  | Dir _ es =>
      (nodupb (map fst es) && forallb (fun d => distinct_names (snd d)) es)%bool
  end.

Definition distinct_names_in (es : entries) : bool :=
  (nodupb (map fst es) && forallb (fun d => distinct_names (snd d)) es)%bool.

Definition listing_distinct (ls : listing) : bool :=
  match ls with
  | Listed es => distinct_names_in es
  | Failed _ => true
  end.

(** A tree with a directory that cannot be listed, a link, an excluded
    directory and ordinary ones, two levels deep. *)
Definition tree_mixed : entries :=
  [("docs", Dir true [("guide.md", File); ("img", Dir true [("logo.png", File)])]);
   ("locked", Dir false [("key.pem", File)]);
   ("latest", DirLink ["docs"]);
   ("dist", Dir true [("bundle.js", File)]);
   ("Build", Dir true [("notes.txt", File)]);
   ("setup.py", File)].

(** ** What the walk can see of a tree *)






(** ** Ordinary path components *)

(** A name that is neither empty, nor [.], nor [..], and holds no
    separator. *)
Definition plain_name (s : string) : bool :=
  (good_name s && negb (String.eqb s ".") && negb (String.eqb s ".."))%bool.

(** The absolute path of the directory reached from [/] through [comps],
    as [os.getcwd()] gives it. *)
Definition absolute (comps : list string) : string :=
  "/" +++ PyStr.join PosixPath.sep comps.

(** ** Paths that os.scandir refuses

    [scandir] above is [os.scandir] on the paths a file system can hold.
    A string that holds a NUL character is no such path: [os.scandir]
    raises [ValueError] for it before it looks at the file system, and
    [ValueError] is not an [OSError], so the [except OSError] of [os.walk]
    lets it through.  The walk is given again here with that case. *)

















(** * Properties *)

(** ** Strings *)

Example replace_dot : PyStr.replace "./a.b/c" "." "" = "/ab/c".
Proof. reflexivity. Qed.

Example replace_overlap : PyStr.replace "aaaa/aa" "aa" "x" = "xx/x".
Proof. reflexivity. Qed.

Example replace_empty_old : PyStr.replace "ab" "" "-" = "-a-b-".
Proof. reflexivity. Qed.

Example basename_nested : PosixPath.basename "./src/app" = "app".
Proof. reflexivity. Qed.

Example basename_trailing : PosixPath.basename "/usr/" = "".
Proof. reflexivity. Qed.

Example abspath_dot : PosixPath.abspath "/home/u/proj" "." = "/home/u/proj".
Proof. reflexivity. Qed.

Example abspath_up : PosixPath.abspath "/home/u/proj" "../x/./y/" = "/home/u/x/y".
Proof. reflexivity. Qed.

Example abspath_root : PosixPath.abspath "/" "." = "/".
Proof. reflexivity. Qed.

Example abspath_two_slashes : PosixPath.abspath "/" "//a/../.." = "//".
Proof. reflexivity. Qed.

Example len_bar : PyStr.len bar = 4 /\ PyStr.len tee = 4 /\ PyStr.len elbow = 4.
Proof. repeat split. Qed.

Example join_plain : PosixPath.join "." "src" = "./src".
Proof. reflexivity. Qed.

Example join_trailing_sep : PosixPath.join "./" "src" = "./src".
Proof. reflexivity. Qed.

Example level_dot : level "." "./src/app" = 2.
Proof. reflexivity. Qed.

Example level_trailing_sep : level "./" "./src/app" = 1.
Proof. reflexivity. Qed.

Example level_root_dir : level "/" "/usr/lib" = 0.
Proof. reflexivity. Qed.

(** The order of the listing shows in the output. *)
Example order_matters :
  w_stdout (st_world (main (fresh_world "/" (Listed [("a", File); ("b", File)]))))
  <> w_stdout (st_world (main (fresh_world "/" (Listed [("b", File); ("a", File)])))).
Proof. vm_compute. discriminate. Qed.

Example run_with_build :
  w_stdout (st_world (main (fresh_world "/home/u/proj" (Listed tree_with_build))))
  = ["Project Structure: proj"; "========================================";
     "│   └── README.md"; "│   ├── lib/"; "│   │   ├── util.py"; "│   │   └── build"].
Proof. vm_compute. reflexivity. Qed.

Lemma append_nil_r (s : string) : s +++ "" = s.
Proof. induction s; simpl; congruence. Qed.

Lemma append_assoc (a b c : string) : (a +++ b) +++ c = a +++ b +++ c.
Proof. induction a; simpl; congruence. Qed.

Lemma length_append (a b : string) :
  String.length (a +++ b) = String.length a + String.length b.
Proof. induction a; simpl; congruence. Qed.

Lemma count_append (a b : string) (c : ascii) :
  PyStr.count (a +++ b) c = PyStr.count a c + PyStr.count b c.
Proof. induction a; simpl; [reflexivity | rewrite IHa; lia]. Qed.

Lemma endswith_append_cons (a : string) (x : ascii) (b : string) (c : ascii) :
  PyStr.endswith (a +++ String x b) c = PyStr.endswith (String x b) c.
Proof.
  induction a as [|y a IH]; [reflexivity|].
  change (String y a +++ String x b) with (String y (a +++ String x b)).
  destruct a; simpl in *; exact IH.
Qed.

Lemma endswith_count (s : string) (c : ascii) :
  PyStr.endswith s c = true -> PyStr.count s c <> 0.
Proof.
  induction s as [|a s IH]; simpl; [discriminate|].
  destruct s.
  - intros ->. simpl. lia.
  - intros H. specialize (IH H). lia.
Qed.

Lemma startswith_count (s : string) (c : ascii) :
  PyStr.startswith s c = true -> PyStr.count s c <> 0.
Proof. destruct s; simpl; [discriminate|]. intros ->. lia. Qed.

Lemma prefix_take (old s : string) :
  String.prefix old s = true -> take (String.length old) s = old.
Proof.
  revert s. induction old as [|b old IH]; intros s H; [destruct s; reflexivity|].
  destruct s as [|a s]; simpl in H; [discriminate|].
  destruct (ascii_dec b a) as [->|]; [|discriminate].
  simpl. f_equal. apply IH, H.
Qed.

(** Removing the occurrences of a string that holds no [c] does not change
    the number of [c]. *)
Lemma count_replace_from (old : string) (c : ascii) :
  old <> "" -> PyStr.count old c = 0 ->
  forall s skip,
    PyStr.count (take skip s) c = 0 ->
    PyStr.count (PyStr.replace_from old "" skip s) c = PyStr.count s c.
Proof.
  intros Hne Hold. induction s as [|a s IH]; intros skip Hskip; [reflexivity|].
  destruct skip as [|k].
  - cbn [PyStr.replace_from].
    destruct (String.prefix old (String a s)) eqn:Hp.
    + apply prefix_take in Hp.
      destruct old as [|b old]; [congruence|].
      simpl in Hp. injection Hp as -> Hp'.
      cbn [String.length Nat.sub]. rewrite Nat.sub_0_r.
      simpl in Hold.
      change ("" +++ ?x) with x.
      rewrite IH by (rewrite Hp'; lia).
      simpl. destruct (Ascii.eqb b c); simpl in *; lia.
    + simpl. rewrite IH by (destruct s; reflexivity). reflexivity.
  - simpl in Hskip. simpl.
    rewrite IH by lia. destruct (Ascii.eqb a c); simpl in *; lia.
Qed.

Lemma count_replace (s old : string) (c : ascii) :
  old <> "" -> PyStr.count old c = 0 ->
  PyStr.count (PyStr.replace s old "") c = PyStr.count s c.
Proof.
  intros Hne Hold. unfold PyStr.replace.
  destruct old; [congruence|].
  apply count_replace_from; auto.
Qed.

Lemma rfind_none (s : string) (c : ascii) :
  PyStr.count s c = 0 -> PyStr.rfind s c = (-1)%Z.
Proof.
  induction s as [|a s IH]; simpl; [reflexivity|].
  destruct (Ascii.eqb a c); simpl; [discriminate|].
  intros H. rewrite (IH H). reflexivity.
Qed.

Lemma rfind_append_sep (p n : string) (c : ascii) :
  PyStr.count n c = 0 ->
  PyStr.rfind (p +++ String c n) c = Z.of_nat (String.length p).
Proof.
  intros Hn. induction p as [|a p IH].
  - simpl. rewrite (rfind_none _ _ Hn). simpl. rewrite Ascii.eqb_refl. reflexivity.
  - change (String a p +++ String c n) with (String a (p +++ String c n)).
    cbn [PyStr.rfind]. rewrite IH.
    destruct (0 <=? Z.of_nat (String.length p))%Z eqn:E.
    + cbn [String.length]. lia.
    + apply Z.leb_gt in E. lia.
Qed.

Lemma drop_append (p s : string) : PyStr.drop (String.length p) (p +++ s) = s.
Proof. induction p; simpl; [reflexivity | assumption]. Qed.

(** The base name of [p/n] is [n] when [n] holds no separator. *)
Lemma basename_append_sep (p n : string) :
  PyStr.count n PosixPath.sep_char = 0 ->
  PosixPath.basename (p +++ PosixPath.sep +++ n) = n.
Proof.
  intros Hn. unfold PosixPath.basename, PosixPath.sep.
  change ("/" +++ n) with (String PosixPath.sep_char n).
  rewrite rfind_append_sep by assumption.
  replace (Z.to_nat (Z.of_nat (String.length p) + 1))
    with (String.length (p +++ "/")) by (rewrite length_append; simpl; lia).
  change (String PosixPath.sep_char n) with ("/" +++ n).
  rewrite <- append_assoc. apply drop_append.
Qed.

(** ** Induction on trees *)

Lemma node_induction (P : node -> Prop) :
  P File -> (forall target, P (DirLink target)) ->
  (forall readable es, Forall (fun d => P (snd d)) es -> P (Dir readable es)) ->
  forall n, P n.
Proof.
  intros HF HL HD. fix IH 1. intros [|target|readable es]; [exact HF | apply HL |].
  apply HD. induction es as [|[name c] es IHes]; constructor; [apply IH | exact IHes].
Qed.

(** ** Printing *)

Lemma print_all_app (l1 l2 : list string) (w : world) :
  print_all (l1 ++ l2) w = print_all l2 (print_all l1 w).
Proof. unfold print_all. apply fold_left_app. Qed.

Lemma print_all_stdout (l : list string) (w : world) :
  w_stdout (print_all l w) = w_stdout w ++ l.
Proof.
  revert w. induction l as [|x l IH]; intros w; simpl.
  - symmetry. apply app_nil_r.
  - fold (print_all l (print x w)). rewrite IH. simpl.
    rewrite <- app_assoc. reflexivity.
Qed.

Lemma print_all_frame (l : list string) (w : world) :
  w_cwd (print_all l w) = w_cwd w /\
  w_fs (print_all l w) = w_fs w /\
  w_stderr (print_all l w) = w_stderr w.
Proof.
  revert w. induction l as [|x l IH]; intros w; simpl; [auto|].
  fold (print_all l (print x w)). destruct (IH (print x w)) as (H1 & H2 & H3).
  rewrite H1, H2, H3. auto.
Qed.

Lemma printed_app (t1 t2 : list iteration) :
  printed (t1 ++ t2) = printed t1 ++ printed t2.
Proof. apply flat_map_app. Qed.

(** ** The loop against the recursion on the tree *)

Lemma join_not_empty (top name : string) :
  top <> "" -> PosixPath.join top name <> "".
Proof.
  intros Htop. unfold PosixPath.join.
  destruct (PyStr.startswith name PosixPath.sep_char) eqn:E.
  - destruct name; [discriminate | congruence].
  - destruct top; [congruence|].
    destruct (_ || _)%bool; simpl; discriminate.
Qed.

Lemma frame_trace_push (sp : string) (rel : list string) (top : string)
    (d : string * node) :
  top <> "" -> is_dir (snd d) = true ->
  flat_map (frame_trace sp) (push_dir rel top d)
  = node_trace sp (rel ++ [fst d]) (PosixPath.join top (fst d)) (snd d).
Proof.
  intros Htop Hd. destruct d as [name c]. unfold push_dir. simpl in *.
  pose proof (join_not_empty top name Htop) as Hj.
  apply String.eqb_neq in Hj.
  destruct c as [| |[|] es]; try discriminate; simpl;
    unfold frame_trace, scandir; simpl; try rewrite Hj; rewrite ?app_nil_r; reflexivity.
Qed.

Lemma frame_trace_children (sp : string) (rel : list string) (top : string)
    (es : entries) :
  top <> "" ->
  flat_map (frame_trace sp)
    (flat_map (push_dir rel top)
       (filter (fun d => negb (in_exclude_dirs (fst d))) (walk_dirs es)))
  = flat_map (fun d =>
                if descends d
                then node_trace sp (rel ++ [fst d]) (PosixPath.join top (fst d)) (snd d)
                else [])
             es.
Proof.
  intros Htop. unfold walk_dirs.
  induction es as [|d es IH]; [reflexivity|].
  cbn [filter flat_map]. unfold descends at 1.
  destruct (is_dir (snd d)) eqn:Hd; cbn [filter andb]; [|exact IH].
  destruct (in_exclude_dirs (fst d)); cbn [negb flat_map]; [exact IH|].
  rewrite flat_map_app, IH, frame_trace_push by assumption. reflexivity.
Qed.

Lemma list_sum_cons (a : nat) (l : list nat) : list_sum (a :: l) = a + list_sum l.
Proof. reflexivity. Qed.

Lemma pending_cons (fr : frame) (s : list frame) :
  pending (fr :: s) = frame_size fr + pending s.
Proof. reflexivity. Qed.

Lemma pending_app (s1 s2 : list frame) :
  pending (s1 ++ s2) = pending s1 + pending s2.
Proof. unfold pending. rewrite map_app. apply list_sum_app. Qed.

Lemma pending_children (rel : list string) (top : string) (es : entries) :
  pending (flat_map (push_dir rel top)
             (filter (fun d => negb (in_exclude_dirs (fst d))) (walk_dirs es)))
  <= ndirs_in es.
Proof.
  unfold walk_dirs, ndirs_in.
  induction es as [|[name c] es IH]; [cbv; lia|].
  cbn [filter map snd fst]. rewrite list_sum_cons.
  destruct c as [| |readable sub]; cbn [is_dir filter].
  - cbn [ndirs]. lia.
  - cbn [filter fst].
    destruct (in_exclude_dirs name); cbn [negb flat_map push_dir snd app ndirs]; lia.
  - cbn [filter fst]. destruct (in_exclude_dirs name); cbn [negb flat_map]; [lia|].
    rewrite pending_app. unfold push_dir at 1. cbn [snd fst].
    rewrite pending_cons. unfold frame_size. cbn [f_ls].
    change (pending []) with 0.
    destruct readable; cbn [ndirs]; fold (ndirs_in sub); lia.
Qed.

(** Every turn of the loop uses up some of the pending work. *)
Lemma walk_step_pending (sp : string) (st st' : state) :
  walk_step None sp st = Resumed st' ->
  pending (st_stack st') < pending (st_stack st).
Proof.
  unfold walk_step. destruct (st_stack st) as [|fr stack] eqn:Hs; [discriminate|].
  rewrite pending_cons. unfold frame_size, scandir.
  destruct (String.eqb (f_top fr) "").
  - intros [= <-]. simpl. destruct (f_ls fr); lia.
  - destruct (f_ls fr) as [es|e].
    + unfold loop_body. intros [= <-]. cbn [st_stack].
      rewrite pending_app.
      pose proof (pending_children (f_rel fr) (f_top fr) es). lia.
    + intros [= <-]. simpl. lia.
Qed.

Lemma frame_trace_listed (sp : string) (fr : frame) (es : entries) :
  scandir fr = Listed es ->
  frame_trace sp fr
  = listed_turn sp (f_rel fr) (f_top fr) es
    :: flat_map (frame_trace sp)
         (flat_map (push_dir (f_rel fr) (f_top fr))
            (fst (loop_body sp (f_rel fr) (f_top fr) (walk_dirs es) (walk_nondirs es)))).
Proof.
  intros Hscan. unfold frame_trace at 1. rewrite Hscan. cbn [node_trace].
  unfold loop_body. cbn [fst].
  rewrite frame_trace_children; [reflexivity|].
  unfold scandir in Hscan.
  destruct (String.eqb_spec (f_top fr) ""); [discriminate | assumption].
Qed.

Lemma frame_trace_failed (sp : string) (fr : frame) (e : oserror) :
  scandir fr = Failed e ->
  frame_trace sp fr = [failed_turn (f_rel fr) (f_top fr) e].
Proof. intros Hscan. unfold frame_trace. rewrite Hscan. reflexivity. Qed.

Lemma walk_step_listed (sp : string) (st : state) (fr : frame)
    (stack : list frame) (es : entries) :
  st_stack st = fr :: stack -> scandir fr = Listed es ->
  walk_step None sp st
  = let body := loop_body sp (f_rel fr) (f_top fr) (walk_dirs es) (walk_nondirs es) in
    Resumed (mkState (print_all (map snd (snd body)) (st_world st))
                  (flat_map (push_dir (f_rel fr) (f_top fr)) (fst body) ++ stack)
                  (st_trace st ++ [listed_turn sp (f_rel fr) (f_top fr) es])).
Proof. intros Hs Hscan. unfold walk_step. rewrite Hs, Hscan. reflexivity. Qed.

Lemma walk_step_failed (sp : string) (st : state) (fr : frame)
    (stack : list frame) (e : oserror) :
  st_stack st = fr :: stack -> scandir fr = Failed e ->
  walk_step None sp st
  = Resumed (mkState (st_world st) stack
                     (st_trace st ++ [failed_turn (f_rel fr) (f_top fr) e])).
Proof. intros Hs Hscan. unfold walk_step. rewrite Hs, Hscan. reflexivity. Qed.

Lemma walk_step_spec (sp : string) (st : state) (fr : frame) (stack : list frame) :
  st_stack st = fr :: stack ->
  exists st',
    walk_step None sp st = Resumed st' /\
    print_all (map snd (printed (flat_map (frame_trace sp) (st_stack st'))))
              (st_world st')
    = print_all (map snd (printed (flat_map (frame_trace sp) (st_stack st))))
                (st_world st) /\
    st_trace st' ++ flat_map (frame_trace sp) (st_stack st')
    = st_trace st ++ flat_map (frame_trace sp) (st_stack st).
Proof.
  intros Hs. rewrite Hs. cbn [flat_map].
  destruct (scandir fr) as [es|e] eqn:Hscan.
  - rewrite (walk_step_listed sp st fr stack es Hs Hscan).
    rewrite (frame_trace_listed sp fr es Hscan).
    eexists. split; [reflexivity|]. cbn [st_stack st_world st_trace].
    rewrite flat_map_app. split.
    + rewrite <- print_all_app, <- map_app. reflexivity.
    + rewrite <- app_assoc. reflexivity.
  - rewrite (walk_step_failed sp st fr stack e Hs Hscan).
    rewrite (frame_trace_failed sp fr e Hscan).
    eexists. split; [reflexivity|]. cbn [st_stack st_world st_trace].
    split; [reflexivity|]. rewrite <- app_assoc. reflexivity.
Qed.

(** With fuel for the pending work, the loop ends, having taken the turns
    of [frame_trace] and printed their lines. *)
Lemma walk_loop_spec (sp : string) (fuel : nat) (st : state) :
  pending (st_stack st) <= fuel ->
  walk_loop sp fuel st
  = Returned (mkState
            (print_all (map snd (printed (flat_map (frame_trace sp) (st_stack st))))
                       (st_world st))
            []
            (st_trace st ++ flat_map (frame_trace sp) (st_stack st))).
Proof.
  revert st. induction fuel as [|k IH]; intros st Hfuel.
  - destruct st as [w stack tr]. cbn [st_stack] in *.
    destruct stack as [|fr stack].
    + simpl. rewrite app_nil_r. reflexivity.
    + rewrite pending_cons in Hfuel.
      unfold frame_size in Hfuel. destruct (f_ls fr); lia.
  - destruct (st_stack st) as [|fr stack] eqn:Hs.
    + destruct st as [w stack tr]. cbn [st_stack] in Hs. subst stack.
      simpl. rewrite app_nil_r. reflexivity.
    + destruct (walk_step_spec sp st fr stack Hs) as (st' & Hstep & Hw & Ht).
      cbn [walk_loop]. rewrite Hstep.
      pose proof (walk_step_pending sp st st' Hstep) as Hlt.
      rewrite IH by (rewrite Hs in Hlt; lia).
      rewrite <- Hs, Hw, Ht. reflexivity.
Qed.

(** ** What a run amounts to *)

Lemma generate_tree_fuel_spec (sp : string) (w : world) (fuel : nat) :
  pending [root_frame sp w] <= fuel ->
  generate_tree_fuel fuel sp w
  = Returned (mkState
            (print_all (map snd (printed (frame_trace sp (root_frame sp w))))
               (print separator (print (header (w_cwd w) sp) w)))
            []
            (frame_trace sp (root_frame sp w))).
Proof.
  intros Hfuel. unfold generate_tree_fuel.
  rewrite walk_loop_spec by exact Hfuel.
  unfold start. cbn [st_stack st_world st_trace flat_map app].
  rewrite app_nil_r. reflexivity.
Qed.

Lemma generate_tree_spec (sp : string) (w : world) :
  generate_tree sp w
  = mkState
      (print_all (map snd (printed (frame_trace sp (root_frame sp w))))
         (print separator (print (header (w_cwd w) sp) w)))
      []
      (frame_trace sp (root_frame sp w)).
Proof.
  unfold generate_tree.
  rewrite generate_tree_fuel_spec by (unfold start, root_frame; cbn [st_stack]; lia).
  reflexivity.
Qed.

Lemma generate_tree_stdout (sp : string) (w : world) :
  w_stdout (st_world (generate_tree sp w))
  = w_stdout w
    ++ header (w_cwd w) sp :: separator
       :: map snd (printed (st_trace (generate_tree sp w))).
Proof.
  rewrite generate_tree_spec. cbn [st_world st_trace].
  rewrite print_all_stdout. simpl. rewrite <- !app_assoc. reflexivity.
Qed.

Ltac own_turn :=
  exists []; rewrite app_nil_r;
  split; [reflexivity | split; [reflexivity | split; [constructor | reflexivity]]].

(** Every turn below a directory is reached through names that the body
    kept in [dirs], and its path is built from them by [join]. *)
Lemma node_trace_inv (sp : string) (n : node) :
  forall rel top it,
    In it (node_trace sp rel top n) ->
    exists q,
      it_rel it = rel ++ q /\ it_top it = path_of top q /\
      Forall kept q /\ turn_ok sp it.
Proof.
  induction n as [| |readable es IH] using node_induction; intros rel top it Hin.
  - destruct Hin as [<-|[]]. own_turn.
  - destruct Hin.
  - destruct readable.
    + cbn [node_trace] in Hin. destruct Hin as [<-|Hin].
      * own_turn.
      * apply in_flat_map in Hin. destruct Hin as (d & Hd & Hin).
        destruct (descends d) eqn:Hdesc; [|destruct Hin].
        rewrite Forall_forall in IH.
        destruct (IH d Hd _ _ _ Hin) as (q & Hrel & Htop & Hq & Hok).
        exists (fst d :: q). rewrite Hrel, Htop, <- app_assoc.
        split; [reflexivity|]. split; [reflexivity|]. split; [|assumption].
        constructor; [|assumption].
        unfold descends in Hdesc. apply andb_prop in Hdesc. destruct Hdesc as [_ Hk].
        unfold kept. destruct (in_exclude_dirs (fst d)); [discriminate | reflexivity].
    + destruct Hin as [<-|[]]. own_turn.
Qed.

Lemma frame_trace_inv (sp : string) (fr : frame) (it : iteration) :
  In it (frame_trace sp fr) ->
  exists q,
    it_rel it = f_rel fr ++ q /\ it_top it = path_of (f_top fr) q /\
    Forall kept q /\ turn_ok sp it.
Proof.
  unfold frame_trace. destruct (scandir fr) as [es|e].
  - apply node_trace_inv.
  - intros [<-|[]]. own_turn.
Qed.

Lemma trace_inv (sp : string) (w : world) (it : iteration) :
  In it (st_trace (generate_tree sp w)) ->
  it_top it = path_of sp (it_rel it) /\ Forall kept (it_rel it) /\ turn_ok sp it.
Proof.
  rewrite generate_tree_spec. cbn [st_trace]. intros Hin.
  destruct (frame_trace_inv sp _ it Hin) as (q & Hrel & Htop & Hq & Hok).
  cbn [root_frame f_rel f_top app] in *. rewrite Hrel. auto.
Qed.

(** The lines of a turn are about the directory of the turn. *)
Lemma turn_owner (sp : string) (it : iteration) (o : owner) (line : string) :
  turn_ok sp it -> In (o, line) (it_prints it) -> owner_dir o = it_rel it.
Proof.
  unfold turn_ok. destruct (it_found it) as [es|e]; intros -> Hin; [|destruct Hin].
  unfold loop_body in Hin. cbn [snd] in Hin.
  apply in_app_or in Hin. destruct Hin as [Hin|Hin].
  - destruct (String.eqb (it_top it) sp); [destruct Hin|].
    destruct Hin as [[= <- _]|[]]. reflexivity.
  - apply in_map_iff in Hin. destruct Hin as ([i f] & [= <- _] & _). reflexivity.
Qed.

Lemma in_printed (tr : list iteration) (x : owner * string) :
  In x (printed tr) <-> exists it, In it tr /\ In x (it_prints it).
Proof. unfold printed. apply in_flat_map. Qed.

Lemma kept_not_excluded (d : string) (p q : list string) :
  In d exclude_dirs -> ~ Forall kept (p ++ d :: q).
Proof.
  intros Hd HF. rewrite Forall_forall in HF.
  specialize (HF d (in_elt d p q)). unfold kept, in_exclude_dirs in HF.
  assert (Ht : existsb (String.eqb d) exclude_dirs = true).
  { apply existsb_exists. exists d. split; [assumption | apply String.eqb_refl]. }
  congruence.
Qed.

(** ** Excluded directories *)

(** C1. Whatever the tree and the start path, a directory reached through a
    name of the exclusion set -- the excluded sub-directory [p ++ [d]]
    itself or anything beneath it, [p ++ d :: q] -- is never passed to
    [scandir] (no turn of the walk is for it) and no printed line is about it
    or about a file in it; standard output holds nothing but the header,
    the separator and the lines of the turns.  The body filters [dirs]
    before the walk pushes the sub-directories. *)
Theorem excluded_subtree_never_visited (sp : string) (w : world)
    (p : list string) (d : string) (q : list string) :
  In d exclude_dirs ->
  (forall it, In it (st_trace (generate_tree sp w)) -> it_rel it <> p ++ d :: q) /\
  (forall o line,
      In (o, line) (printed (st_trace (generate_tree sp w))) ->
      owner_dir o <> p ++ d :: q) /\
  w_stdout (st_world (generate_tree sp w))
  = w_stdout w ++ header (w_cwd w) sp :: separator
    :: map snd (printed (st_trace (generate_tree sp w))).
Proof.
  intros Hd. split; [|split].
  - intros it Hin Heq. apply trace_inv in Hin. destruct Hin as (_ & Hk & _).
    rewrite Heq in Hk. exact (kept_not_excluded d p q Hd Hk).
  - intros o line Hin Heq. apply in_printed in Hin. destruct Hin as (it & Hit & Hin).
    apply trace_inv in Hit. destruct Hit as (_ & Hk & Hok).
    rewrite <- (turn_owner sp it o line Hok Hin), Heq in Hk.
    exact (kept_not_excluded d p q Hd Hk).
  - apply generate_tree_stdout.
Qed.

Lemma excluded_subtree_never_visited_witness :
  In "build" exclude_dirs /\
  (forall it,
      In it (st_trace (generate_tree "." (fresh_world "/home/u/proj" (Listed tree_with_build)))) ->
      it_rel it <> ["build"; "obj"]) /\
  w_stdout (st_world (generate_tree "." (fresh_world "/home/u/proj" (Listed tree_with_build))))
  = ["Project Structure: proj"; "========================================";
     "│   └── README.md"; "│   ├── lib/"; "│   │   ├── util.py"; "│   │   └── build"].
Proof.
  assert (H : In "build" exclude_dirs) by (simpl; tauto).
  split; [exact H|].
  destruct (excluded_subtree_never_visited "."
              (fresh_world "/home/u/proj" (Listed tree_with_build))
              [] "build" ["obj"] H) as (H1 & _ & H3).
  split; [exact H1|].
  rewrite H3. vm_compute. reflexivity.
Defined.

(** ** Errors of the directory listing *)

















(** ** Header *)

(** C3, as the code has it.  The first line printed is the text
    ["Project Structure: "] followed by the base name of the absolute start
    path, or by the start path itself when that base name is empty; the
    second line is forty ["="]. *)
Theorem header_then_separator (sp : string) (w : world) :
  exists rest,
    w_stdout (st_world (generate_tree sp w))
    = w_stdout w ++ header (w_cwd w) sp :: separator :: rest /\
    header (w_cwd w) sp
    = "Project Structure: "
      +++ (if String.eqb (PosixPath.basename (PosixPath.abspath (w_cwd w) sp)) ""
           then sp
           else PosixPath.basename (PosixPath.abspath (w_cwd w) sp)) /\
    separator = "========================================" /\
    String.length separator = 40.
Proof.
  exists (map snd (printed (st_trace (generate_tree sp w)))).
  split; [apply generate_tree_stdout|].
  repeat split.
Qed.

(** C3, as stated, fails: in [/home/u/proj] the base name of the root is
    [proj], and the first line is not that base name. *)
Lemma header_is_not_the_base_name :
  PosixPath.basename (PosixPath.abspath "/home/u/proj" ".") = "proj" /\
  hd "" (w_stdout (main (fresh_world "/home/u/proj" (Listed tree_one_file))).(st_world))
  = "Project Structure: proj" /\
  hd "" (w_stdout (main (fresh_world "/home/u/proj" (Listed tree_one_file))).(st_world))
  <> PosixPath.basename (PosixPath.abspath "/home/u/proj" ".").
Proof.
  split; [reflexivity|]. split; [vm_compute; reflexivity|].
  vm_compute. discriminate.
Qed.

(** ** Paths built by the walk *)

Lemma good_name_spec (n : string) :
  good_name n = true <-> n <> "" /\ PyStr.count n PosixPath.sep_char = 0.
Proof.
  unfold good_name. rewrite andb_true_iff, negb_true_iff, Nat.eqb_eq.
  split; intros [H1 H2]; split; auto.
  - intros ->. discriminate.
  - destruct (String.eqb_spec n ""); congruence.
Qed.

Lemma join_good (top name : string) :
  top <> "" -> PyStr.endswith top PosixPath.sep_char = false ->
  good_name name = true ->
  PosixPath.join top name = top +++ PosixPath.sep +++ name.
Proof.
  intros Htop Hend Hn. apply good_name_spec in Hn. destruct Hn as [_ Hc].
  unfold PosixPath.join.
  destruct (PyStr.startswith name PosixPath.sep_char) eqn:E.
  - apply startswith_count in E. contradiction.
  - rewrite Hend. apply String.eqb_neq in Htop. rewrite Htop. reflexivity.
Qed.

Lemma endswith_join_good (top name : string) :
  good_name name = true ->
  PyStr.endswith (top +++ PosixPath.sep +++ name) PosixPath.sep_char = false.
Proof.
  intros Hn. apply good_name_spec in Hn. destruct Hn as [Hne Hc].
  destruct name as [|a name]; [congruence|].
  rewrite <- append_assoc, endswith_append_cons.
  destruct (PyStr.endswith (String a name) PosixPath.sep_char) eqn:E; [|reflexivity].
  apply endswith_count in E. contradiction.
Qed.

Lemma append_not_empty_r (a b : string) : b <> "" -> a +++ b <> "".
Proof. destruct a; simpl; [auto | discriminate]. Qed.

(** From a start path that does not end with a separator, descending
    through file-system names appends [/name] each time. *)
Lemma path_of_snoc (sp : string) (rel : list string) (name : string) :
  sp <> "" -> PyStr.endswith sp PosixPath.sep_char = false ->
  Forall (fun n => good_name n = true) rel -> good_name name = true ->
  path_of sp (rel ++ [name]) = path_of sp rel +++ PosixPath.sep +++ name /\
  path_of sp rel <> "" /\
  PyStr.endswith (path_of sp rel) PosixPath.sep_char = false.
Proof.
  intros Hsp Hend Hrel Hname. revert sp Hsp Hend.
  induction Hrel as [|n rel Hn Hrel IH]; intros sp Hsp Hend.
  - simpl. rewrite join_good by assumption. auto.
  - unfold path_of in *. cbn [app fold_left].
    rewrite (join_good sp n) by assumption.
    apply IH.
    + apply append_not_empty_r. discriminate.
    + apply endswith_join_good, Hn.
Qed.

Lemma count_path_of (sp : string) (rel : list string) :
  sp <> "" -> PyStr.endswith sp PosixPath.sep_char = false ->
  Forall (fun n => good_name n = true) rel ->
  PyStr.count (path_of sp rel) PosixPath.sep_char
  = PyStr.count sp PosixPath.sep_char + length rel.
Proof.
  intros Hsp Hend Hrel.
  induction rel as [|name rel IH] using rev_ind; [simpl; lia|].
  apply Forall_app in Hrel. destruct Hrel as [Hrel Hname].
  inversion Hname as [|? ? Hn _]; subst.
  destruct (path_of_snoc sp rel name Hsp Hend Hrel Hn) as (-> & _ & _).
  rewrite !count_append, IH, length_app by assumption.
  apply good_name_spec in Hn. destruct Hn as [_ ->]. simpl. lia.
Qed.

Lemma no_sep_no_trailing_sep (sp : string) :
  PyStr.count sp PosixPath.sep_char = 0 ->
  PyStr.endswith sp PosixPath.sep_char = false.
Proof.
  intros H. destruct (PyStr.endswith sp PosixPath.sep_char) eqn:E; [|reflexivity].
  apply endswith_count in E. contradiction.
Qed.

(** With a start path free of separators, the level the body computes is
    the depth of the directory below the start path. *)
Lemma level_is_depth (sp : string) (rel : list string) :
  sp <> "" -> PyStr.count sp PosixPath.sep_char = 0 ->
  Forall (fun n => good_name n = true) rel ->
  level sp (path_of sp rel) = length rel.
Proof.
  intros Hsp Hc Hrel. unfold level.
  rewrite count_replace by assumption.
  rewrite count_path_of by (auto using no_sep_no_trailing_sep). lia.
Qed.

Lemma basename_path_of (sp : string) (rel : list string) (name : string) :
  sp <> "" -> PyStr.endswith sp PosixPath.sep_char = false ->
  Forall (fun n => good_name n = true) (rel ++ [name]) ->
  PosixPath.basename (path_of sp (rel ++ [name])) = name.
Proof.
  intros Hsp Hend Hrel. apply Forall_app in Hrel. destruct Hrel as [Hrel Hname].
  inversion Hname as [|? ? Hn _]; subst.
  destruct (path_of_snoc sp rel name Hsp Hend Hrel Hn) as (-> & _ & _).
  apply basename_append_sep. apply good_name_spec in Hn. tauto.
Qed.


Lemma path_of_is_start (sp : string) (rel : list string) :
  sp <> "" -> PyStr.endswith sp PosixPath.sep_char = false ->
  Forall (fun n => good_name n = true) rel ->
  path_of sp rel = sp -> rel = [].
Proof.
  intros Hsp Hend Hrel Heq.
  pose proof (count_path_of sp rel Hsp Hend Hrel) as Hc. rewrite Heq in Hc.
  destruct rel; [reflexivity | simpl in Hc; lia].
Qed.

Lemma join_longer (top name : string) :
  good_name name = true ->
  String.length top < String.length (PosixPath.join top name).
Proof.
  intros Hn. apply good_name_spec in Hn. destruct Hn as [Hne Hc].
  unfold PosixPath.join.
  destruct (PyStr.startswith name PosixPath.sep_char) eqn:E.
  - apply startswith_count in E. contradiction.
  - destruct name; [congruence|].
    destruct (_ || _)%bool; rewrite !length_append; simpl; lia.
Qed.

(** ** Names met by the walk *)

Lemma node_trace_good (sp : string) (n : node) :
  forall rel top it,
    good_names n = true ->
    In it (node_trace sp rel top n) ->
    exists q, it_rel it = rel ++ q /\ Forall (fun x => good_name x = true) q.
Proof.
  induction n as [| |readable es IH] using node_induction; intros rel top it Hg Hin.
  - destruct Hin as [<-|[]]. exists []. rewrite app_nil_r. auto.
  - destruct Hin.
  - destruct readable.
    + cbn [node_trace] in Hin. destruct Hin as [<-|Hin].
      * exists []. rewrite app_nil_r. auto.
      * apply in_flat_map in Hin. destruct Hin as (d & Hd & Hin).
        destruct (descends d); [|destruct Hin].
        cbn [good_names] in Hg. rewrite forallb_forall in Hg.
        specialize (Hg d Hd). apply andb_prop in Hg. destruct Hg as [Hgn Hgd].
        rewrite Forall_forall in IH.
        destruct (IH d Hd _ _ _ Hgd Hin) as (q & Hrel & Hq).
        exists (fst d :: q). rewrite Hrel, <- app_assoc. auto.
    + destruct Hin as [<-|[]]. exists []. rewrite app_nil_r. auto.
Qed.

Lemma trace_good (sp : string) (w : world) (it : iteration) :
  listing_good (w_fs w) = true ->
  In it (st_trace (generate_tree sp w)) ->
  Forall (fun x => good_name x = true) (it_rel it).
Proof.
  rewrite generate_tree_spec. cbn [st_trace]. unfold frame_trace, scandir, listing_good.
  cbn [root_frame f_top f_ls f_rel].
  destruct (String.eqb sp ""); [intros _ [<-|[]]; constructor|].
  destruct (w_fs w) as [es|e]; [|intros _ [<-|[]]; constructor].
  intros Hg Hin.
  destruct (node_trace_good sp (Dir true es) [] sp it Hg Hin) as (q & -> & Hq).
  exact Hq.
Qed.

(** ** Lines of one turn *)

Lemma turn_prints (sp : string) (it : iteration) (es : entries) :
  turn_ok sp it -> it_found it = Listed es ->
  it_prints it
  = (if String.eqb (it_top it) sp then []
     else [(DirOf (it_rel it), dir_line sp (it_top it))])
    ++ map (fun '(i, f) =>
              (FileOf (it_rel it) f,
               file_line sp (it_top it) (length (walk_nondirs es)) i f))
           (enumerate (walk_nondirs es)).
Proof. unfold turn_ok. intros Hok Hf. rewrite Hf in Hok. exact Hok. Qed.

Lemma filter_file_prints (rel : list string) (g : Z -> string -> string)
    (l : list (Z * string)) (keep_dirs : bool) :
  filter (fun x => if keep_dirs then about_dir x else negb (about_dir x))
         (map (fun '(i, f) => (FileOf rel f, g i f)) l)
  = if keep_dirs then [] else map (fun '(i, f) => (FileOf rel f, g i f)) l.
Proof.
  induction l as [|[i f] l IH]; [destruct keep_dirs; reflexivity|].
  simpl. destruct keep_dirs; simpl; rewrite IH; reflexivity.
Qed.

Lemma nth_error_enumerate_from {A : Type} (l : list A) :
  forall k i x,
    nth_error l i = Some x ->
    nth_error (combine (map Z.of_nat (seq k (length l))) l) i
    = Some (Z.of_nat (k + i), x).
Proof.
  induction l as [|a l IH]; intros k [|i] x H; try discriminate.
  - injection H as ->. simpl. rewrite Nat.add_0_r. reflexivity.
  - simpl in *. rewrite (IH (S k) i x H). do 3 f_equal. lia.
Qed.

Lemma nth_error_enumerate {A : Type} (l : list A) (i : nat) (x : A) :
  nth_error l i = Some x ->
  nth_error (enumerate l) i = Some (Z.of_nat i, x).
Proof. apply (nth_error_enumerate_from l 0). Qed.

Lemma length_enumerate {A : Type} (l : list A) : length (enumerate l) = length l.
Proof.
  unfold enumerate. rewrite length_combine, length_map, length_seq. lia.
Qed.

(** ** Directory lines *)

(** C4, as the code has it.  A turn that lists a directory prints no
    directory line when the path is the start path, and otherwise exactly
    one: [level] times the bar (four characters), the tee, the base name of
    the path and a slash, where [level] is the number of separators left in
    the path once the occurrences of the start path are removed.  When the
    start path holds no separator (as ["."] in the script) and the names
    are file-system names, the root is the one directory without a line,
    [level] is the depth of the directory below the root -- 1 for a
    sub-directory of the root, not 0 -- and the base name is its name. *)
Theorem directory_line_at_level (sp : string) (w : world) (it : iteration)
    (es : entries) :
  In it (st_trace (generate_tree sp w)) ->
  it_found it = Listed es ->
  filter about_dir (it_prints it)
  = (if String.eqb (it_top it) sp then []
     else [(DirOf (it_rel it),
            PyStr.mul bar (level sp (it_top it)) +++ tee
            +++ PosixPath.basename (it_top it) +++ "/")]) /\
  PyStr.len bar = 4 /\
  (sp <> "" -> PyStr.count sp PosixPath.sep_char = 0 ->
   listing_good (w_fs w) = true ->
   (it_top it = sp <-> it_rel it = []) /\
   level sp (it_top it) = length (it_rel it) /\
   (forall p name, it_rel it = p ++ [name] -> PosixPath.basename (it_top it) = name)).
Proof.
  intros Hin Hfound.
  pose proof (trace_inv sp w it Hin) as (Htop & _ & Hok).
  split; [|split; [reflexivity|]].
  - rewrite (turn_prints sp it es Hok Hfound), filter_app.
    rewrite (filter_file_prints (it_rel it) _ _ true), app_nil_r.
    destruct (String.eqb (it_top it) sp); reflexivity.
  - intros Hsp Hc Hgood.
    pose proof (trace_good sp w it Hgood Hin) as Hrel.
    pose proof (no_sep_no_trailing_sep sp Hc) as Hend.
    rewrite Htop. split; [|split].
    + split; [apply path_of_is_start; assumption | intros ->; reflexivity].
    + apply level_is_depth; assumption.
    + intros p name Heq. rewrite Heq in *. apply basename_path_of; assumption.
Qed.

Lemma directory_line_at_level_witness :
  filter about_dir
    (it_prints (listed_turn "." ["src"] "./src" [("main.go", File)]))
  = [(DirOf ["src"], "│   ├── src/")] /\
  level "." "./src" = 1.
Proof.
  assert (Hin : In (listed_turn "." ["src"] "./src" [("main.go", File)])
                   (st_trace (generate_tree "."
                      (fresh_world "/home/u/proj" (Listed tree_src_main)))))
    by (vm_compute; tauto).
  destruct (directory_line_at_level "."
              (fresh_world "/home/u/proj" (Listed tree_src_main))
              (listed_turn "." ["src"] "./src" [("main.go", File)])
              [("main.go", File)] Hin eq_refl) as (H1 & _ & H2).
  split; [exact H1|].
  destruct H2 as (_ & H3 & _); [discriminate | reflexivity | reflexivity |].
  exact H3.
Defined.

(** C4, as stated, fails.  Run on a root that holds the one sub-directory
    [src/], the script prints its line behind one bar: [./src] is one
    separator away from the root, and the line at indentation [1 - 1] is
    not printed. *)
Lemma src_line_is_behind_one_bar :
  w_stdout (st_world (main (fresh_world "/home/u/proj" (Listed tree_src_main))))
  = ["Project Structure: proj"; "========================================";
     "│   ├── src/"; "│   │   └── main.go"] /\
  level "." (PosixPath.join "." "src") = 1 /\
  ~ In (PyStr.mul bar (1 - 1) +++ tee +++ "src" +++ "/")
       (w_stdout (st_world (main (fresh_world "/home/u/proj" (Listed tree_src_main))))).
Proof.
  split; [vm_compute; reflexivity|]. split; [reflexivity|].
  vm_compute. intros H. repeat (destruct H as [H|H]; [discriminate H|]). exact H.
Qed.

(** ** File lines *)

(** C5, as the code has it.  A turn that lists a directory prints one line
    for each of its files, in the order of the listing: [level + 1] times
    the bar -- one more than on the line of the directory itself --, then
    the elbow for the last file and the tee for any other, then the name.
    With a start path free of separators [level] is the depth of the
    directory, so the files of a directory at depth [d] stand behind
    [d + 1] bars. *)
Theorem file_lines_one_bar_deeper (sp : string) (w : world) (it : iteration)
    (es : entries) :
  In it (st_trace (generate_tree sp w)) ->
  it_found it = Listed es ->
  length (filter (fun x => negb (about_dir x)) (it_prints it))
  = length (walk_nondirs es) /\
  (forall i f,
      nth_error (walk_nondirs es) i = Some f ->
      nth_error (filter (fun x => negb (about_dir x)) (it_prints it)) i
      = Some (FileOf (it_rel it) f,
              PyStr.mul bar (level sp (it_top it) + 1)
              +++ (if Nat.eqb (S i) (length (walk_nondirs es)) then elbow else tee)
              +++ f)) /\
  (sp <> "" -> PyStr.count sp PosixPath.sep_char = 0 ->
   listing_good (w_fs w) = true ->
   level sp (it_top it) = length (it_rel it)).
Proof.
  intros Hin Hfound.
  pose proof (trace_inv sp w it Hin) as (Htop & _ & Hok).
  assert (Hfiles :
    filter (fun x => negb (about_dir x)) (it_prints it)
    = map (fun '(i, f) =>
             (FileOf (it_rel it) f,
              file_line sp (it_top it) (length (walk_nondirs es)) i f))
          (enumerate (walk_nondirs es))).
  { rewrite (turn_prints sp it es Hok Hfound), filter_app.
    rewrite (filter_file_prints (it_rel it) _ _ false).
    destruct (String.eqb (it_top it) sp); reflexivity. }
  rewrite Hfiles. split; [|split].
  - rewrite length_map. apply length_enumerate.
  - intros i f Hnth.
    rewrite nth_error_map, (nth_error_enumerate _ i f Hnth). cbn [option_map].
    unfold file_line. cbv zeta. do 4 f_equal.
    assert (i < length (walk_nondirs es)) by (apply nth_error_Some; congruence).
    destruct (Nat.eqb_spec (S i) (length (walk_nondirs es)));
      destruct (Z.eqb_spec (Z.of_nat i) (Z.of_nat (length (walk_nondirs es)) - 1));
      try reflexivity; lia.
  - intros Hsp Hc Hgood. rewrite Htop.
    apply level_is_depth; [assumption | assumption |].
    exact (trace_good sp w it Hgood Hin).
Qed.

Lemma file_lines_one_bar_deeper_witness :
  nth_error
    (filter (fun x => negb (about_dir x))
       (it_prints (listed_turn "." [] "." [("a.txt", File); ("b.txt", File)]))) 1
  = Some (FileOf [] "b.txt", "│   └── b.txt").
Proof.
  assert (Hin : In (listed_turn "." [] "." [("a.txt", File); ("b.txt", File)])
                   (st_trace (generate_tree "."
                      (fresh_world "/home/u/proj"
                         (Listed [("a.txt", File); ("b.txt", File)])))))
    by (vm_compute; tauto).
  destruct (file_lines_one_bar_deeper "."
              (fresh_world "/home/u/proj" (Listed [("a.txt", File); ("b.txt", File)]))
              (listed_turn "." [] "." [("a.txt", File); ("b.txt", File)])
              [("a.txt", File); ("b.txt", File)] Hin eq_refl) as (_ & H2 & _).
  exact (H2 1 "b.txt" eq_refl).
Defined.

(** C5, as stated, fails.  The root is at depth 0, and its one file is not
    printed at indentation 0 but behind one bar. *)
Lemma root_file_is_behind_one_bar :
  w_stdout (st_world (main (fresh_world "/home/u/proj" (Listed tree_one_file))))
  = ["Project Structure: proj"; "========================================";
     "│   └── a.txt"] /\
  level "." "." = 0 /\
  ~ In (PyStr.mul bar 0 +++ elbow +++ "a.txt")
       (w_stdout (st_world (main (fresh_world "/home/u/proj" (Listed tree_one_file))))).
Proof.
  split; [vm_compute; reflexivity|]. split; [reflexivity|].
  vm_compute. intros H. repeat (destruct H as [H|H]; [discriminate H|]). exact H.
Qed.

(** ** Every directory and file once *)

Lemma owners_cons (it : iteration) (tr : list iteration) :
  owners (it :: tr) = map fst (it_prints it) ++ owners tr.
Proof. unfold owners, printed. cbn [flat_map]. apply map_app. Qed.

Lemma owners_app (t1 t2 : list iteration) :
  owners (t1 ++ t2) = owners t1 ++ owners t2.
Proof. unfold owners. rewrite printed_app. apply map_app. Qed.

Lemma file_owners (rel : list string) (g : Z -> string -> string) (files : list string) :
  map fst (map (fun '(i, f) => (FileOf rel f, g i f)) (enumerate files))
  = map (FileOf rel) files.
Proof.
  unfold enumerate. generalize 0 as k.
  induction files as [|f files IH]; intros k; [reflexivity|].
  simpl. f_equal. apply IH.
Qed.

Lemma listed_turn_owners (sp : string) (rel : list string) (top : string)
    (es : entries) :
  map fst (it_prints (listed_turn sp rel top es))
  = (if String.eqb top sp then [] else [DirOf rel])
    ++ map (FileOf rel) (walk_nondirs es).
Proof.
  unfold listed_turn, loop_body. cbn [it_prints snd].
  rewrite map_app, file_owners. destruct (String.eqb top sp); reflexivity.
Qed.

Lemma entries_owners (sp : string) (es : entries) :
  forall rel top,
    String.length sp <= String.length top ->
    Forall (fun d => owners_match sp (snd d)) es ->
    good_names_in es = true -> unexcluded_in es = true -> listable_in es = true ->
    Permutation
      (map (FileOf rel) (walk_nondirs es)
       ++ owners (flat_map (fun d =>
                              if descends d
                              then node_trace sp (rel ++ [fst d])
                                              (PosixPath.join top (fst d)) (snd d)
                              else [])
                           es))
      (tree_owners rel es).
Proof.
  intros rel top Hlen.
  induction es as [|[name c] es IH]; intros HP Hg Hu Hl; [constructor|].
  inversion HP as [|? ? Hc HP']; subst. cbn [snd] in Hc.
  unfold good_names_in, unexcluded_in, listable_in in Hg, Hu, Hl.
  cbn [forallb fst snd] in Hg, Hu, Hl.
  apply andb_prop in Hg. destruct Hg as [Hg Hg'].
  apply andb_prop in Hg. destruct Hg as [Hname Hgc].
  apply andb_prop in Hu. destruct Hu as [Hu Hu'].
  apply andb_prop in Hu. destruct Hu as [Hkept Huc].
  apply andb_prop in Hl. destruct Hl as [Hlc Hl'].
  specialize (IH HP' Hg' Hu' Hl').
  unfold tree_owners, walk_nondirs. cbn [flat_map filter fst snd].
  unfold descends. cbn [fst snd].
  destruct c as [| |readable sub].
  - cbn [is_dir negb andb map fst node_owners app]. apply perm_skip. exact IH.
  - discriminate Hlc.
  - cbn [is_dir negb orb] in Hkept. cbn [is_dir negb andb]. rewrite Hkept.
    rewrite owners_app.
    fold (walk_nondirs es).
    eapply Permutation_trans; [apply Permutation_app_swap_app|].
    apply Permutation_app; [|exact IH].
    apply Hc; try assumption; [|reflexivity].
    pose proof (join_longer top name Hname). lia.
Qed.

Lemma owners_match_all (sp : string) (n : node) : owners_match sp n.
Proof.
  induction n as [| |readable es IH] using node_induction;
    intros rel name top Hlen Hg Hu Hl Hd; try discriminate.
  cbn [listable] in Hl. apply andb_prop in Hl. destruct Hl as [-> Hl].
  cbn [node_trace node_owners]. rewrite owners_cons, listed_turn_owners.
  assert (Hne : String.eqb top sp = false).
  { apply String.eqb_neq. intros ->. lia. }
  rewrite Hne. cbn [app]. apply perm_skip.
  apply entries_owners; try assumption. lia.
Qed.

(** C6, as the code has it.  When the start path can be listed, the names
    are file-system names, no directory bears an excluded name, every
    directory can be listed and none is a symbolic link, the lines printed
    after the header and the separator are about the directories below the
    root and the files of the tree, each exactly once: what they are about
    is a rearrangement of the list of all of them. *)
Theorem every_entry_printed_once (sp : string) (w : world) (es : entries) :
  scandir (root_frame sp w) = Listed es ->
  good_names_in es = true ->
  unexcluded_in es = true ->
  listable_in es = true ->
  Permutation (owners (st_trace (generate_tree sp w))) (tree_owners [] es) /\
  w_stdout (st_world (generate_tree sp w))
  = w_stdout w ++ header (w_cwd w) sp :: separator
    :: map snd (printed (st_trace (generate_tree sp w))) /\
  length (map snd (printed (st_trace (generate_tree sp w))))
  = length (tree_owners [] es).
Proof.
  intros Hscan Hg Hu Hl.
  assert (HP : Permutation (owners (st_trace (generate_tree sp w))) (tree_owners [] es)).
  { rewrite generate_tree_spec. cbn [st_trace]. unfold frame_trace. rewrite Hscan.
    cbn [node_trace root_frame f_rel f_top].
    rewrite owners_cons, listed_turn_owners, String.eqb_refl. cbn [app].
    apply entries_owners; try assumption; [lia|].
    apply Forall_forall. intros d _. apply owners_match_all. }
  split; [exact HP|]. split; [apply generate_tree_stdout|].
  rewrite length_map. apply Permutation_length in HP.
  unfold owners in HP. rewrite length_map in HP. exact HP.
Qed.

Lemma every_entry_printed_once_witness :
  Permutation
    (owners (st_trace (generate_tree "."
               (fresh_world "/home/u/proj" (Listed tree_src_main)))))
    [DirOf ["src"]; FileOf ["src"] "main.go"].
Proof.
  apply (every_entry_printed_once "."
           (fresh_world "/home/u/proj" (Listed tree_src_main)) tree_src_main);
    reflexivity.
Defined.

(** C6, as stated, fails.  No directory of this tree bears an excluded
    name, yet nothing is printed for the directory that cannot be listed,
    for the file in it, or for the link to a directory. *)
Lemma unlistable_entries_are_skipped :
  unexcluded_in tree_locked_and_link = true /\
  tree_owners [] tree_locked_and_link
  = [DirOf ["secret"]; FileOf ["secret"] "a.txt"; DirOf ["current"]] /\
  w_stdout (st_world (generate_tree "."
                        (fresh_world "/home/u/proj" (Listed tree_locked_and_link))))
  = ["Project Structure: proj"; "========================================"] /\
  ~ Permutation
      (owners (st_trace (generate_tree "."
                 (fresh_world "/home/u/proj" (Listed tree_locked_and_link)))))
      (tree_owners [] tree_locked_and_link).
Proof.
  split; [reflexivity|]. split; [reflexivity|]. split; [vm_compute; reflexivity|].
  intros H. apply Permutation_length in H. vm_compute in H. discriminate H.
Qed.

(** ** Determinism *)

Lemma runs_deterministic (sp : string) (st : state) (r1 r2 : result) :
  runs sp st r1 -> runs sp st r2 -> r1 = r2.
Proof.
  intros H1. revert r2.
  induction H1 as [st Hs|st e st' Hs|st st' r Hs H1 IH]; intros r2 H2;
    inversion H2; subst; try congruence.
  apply IH. congruence.
Qed.

Lemma walk_loop_runs (sp : string) (fuel : nat) :
  forall st r, walk_loop sp fuel st = r -> r <> OutOfFuel -> runs sp st r.
Proof.
  induction fuel as [|k IH]; intros st r; cbn [walk_loop];
    destruct (walk_step None sp st) as [|st'|e st'] eqn:Hs; intros <- Hr;
    try (constructor; assumption); try congruence.
  eapply runs_step; [exact Hs|]. apply IH; [reflexivity | assumption].
Qed.

Lemma generate_tree_runs (sp : string) (w : world) :
  runs sp (start sp w) (Returned (generate_tree sp w)).
Proof.
  apply (walk_loop_runs sp (pending [root_frame sp w])); [|discriminate].
  rewrite generate_tree_spec. apply generate_tree_fuel_spec. lia.
Qed.

(** C7. Two runs from the same world -- the same current directory, the
    same tree with its entries in the same order, the same output so far --
    end in the same state, with the same lines on standard output; and that
    state is the one [generate_tree] computes. *)
Theorem generate_tree_deterministic (sp : string) (w : world) (r1 r2 : result) :
  runs sp (start sp w) r1 ->
  runs sp (start sp w) r2 ->
  r1 = r2 /\ r1 = Returned (generate_tree sp w).
Proof.
  intros H1 H2. split.
  - exact (runs_deterministic sp _ r1 r2 H1 H2).
  - exact (runs_deterministic sp _ r1 _ H1 (generate_tree_runs sp w)).
Qed.

Lemma generate_tree_deterministic_witness :
  runs "." (start "." (fresh_world "/home/u/proj" (Listed tree_one_file)))
       (Returned
          (mkState
             (mkWorld "/home/u/proj" (Listed tree_one_file)
                ["Project Structure: proj"; "========================================";
                 "│   └── a.txt"] [])
             []
             [listed_turn "." [] "." tree_one_file])) /\
  Returned
    (mkState
       (mkWorld "/home/u/proj" (Listed tree_one_file)
          ["Project Structure: proj"; "========================================";
           "│   └── a.txt"] [])
       []
       [listed_turn "." [] "." tree_one_file])
  = Returned (generate_tree "." (fresh_world "/home/u/proj" (Listed tree_one_file))).
Proof.
  assert (H : runs "." (start "." (fresh_world "/home/u/proj" (Listed tree_one_file)))
                (Returned
                   (mkState
                      (mkWorld "/home/u/proj" (Listed tree_one_file)
                         ["Project Structure: proj";
                          "========================================";
                          "│   └── a.txt"] [])
                      []
                      [listed_turn "." [] "." tree_one_file]))).
  { eapply runs_step; [vm_compute; reflexivity|].
    apply runs_done. vm_compute. reflexivity. }
  split; [exact H|].
  exact (proj2 (generate_tree_deterministic "." _ _ _ H H)).
Defined.

(** ** Files are never filtered *)

Lemma in_enumerate {A : Type} (l : list A) (x : A) :
  In x l -> exists i, In (Z.of_nat i, x) (enumerate l).
Proof.
  intros Hin. apply In_nth_error in Hin. destruct Hin as [i Hi].
  exists i. apply (nth_error_In _ i). apply nth_error_enumerate, Hi.
Qed.

Lemma in_walk_nondirs (es : entries) (name : string) (n : node) :
  In (name, n) es -> is_dir n = false -> In name (walk_nondirs es).
Proof.
  intros Hin Hd. unfold walk_nondirs.
  apply in_map_iff. exists (name, n). split; [reflexivity|].
  apply filter_In. split; [assumption|]. simpl. rewrite Hd. reflexivity.
Qed.

(** C8. In every directory the walk lists, each entry that is not a
    directory gets a file line -- the bars, a connector, the name -- which
    reaches standard output.  The name is not compared with the exclusion
    set: a file called [build] or [node_modules] is printed like any other. *)
Theorem every_file_is_printed (sp : string) (w : world) (it : iteration)
    (es : entries) (name : string) (n : node) :
  In it (st_trace (generate_tree sp w)) ->
  it_found it = Listed es ->
  In (name, n) es ->
  is_dir n = false ->
  exists connector,
    (connector = tee \/ connector = elbow) /\
    In (FileOf (it_rel it) name,
        PyStr.mul bar (level sp (it_top it) + 1) +++ connector +++ name)
       (it_prints it) /\
    In (PyStr.mul bar (level sp (it_top it) + 1) +++ connector +++ name)
       (w_stdout (st_world (generate_tree sp w))).
Proof.
  intros Hin Hfound Hentry Hd.
  pose proof (trace_inv sp w it Hin) as (_ & _ & Hok).
  pose proof (in_walk_nondirs es name n Hentry Hd) as Hfile.
  apply in_enumerate in Hfile. destruct Hfile as [i Hi].
  exists (if (Z.of_nat i =? Z.of_nat (length (walk_nondirs es)) - 1)%Z
          then elbow else tee).
  split; [destruct (_ =? _)%Z; auto|].
  assert (Hp : In (FileOf (it_rel it) name,
                   file_line sp (it_top it) (length (walk_nondirs es)) (Z.of_nat i) name)
                  (it_prints it)).
  { rewrite (turn_prints sp it es Hok Hfound). apply in_or_app. right.
    apply in_map_iff. exists (Z.of_nat i, name). split; [reflexivity | exact Hi]. }
  split; [exact Hp|].
  rewrite generate_tree_stdout. apply in_or_app. right. right. right.
  apply in_map_iff. eexists. split; [|apply in_printed; exists it; split; [exact Hin | exact Hp]].
  reflexivity.
Qed.

Lemma every_file_is_printed_witness :
  in_exclude_dirs "build" = true /\
  exists connector,
    (connector = tee \/ connector = elbow) /\
    In (FileOf ["lib"] "build", PyStr.mul bar 2 +++ connector +++ "build")
       (it_prints (listed_turn "." ["lib"] "./lib" [("util.py", File); ("build", File)])) /\
    In (PyStr.mul bar 2 +++ connector +++ "build")
       (w_stdout (st_world (generate_tree "."
                              (fresh_world "/home/u/proj" (Listed tree_with_build))))).
Proof.
  split; [reflexivity|].
  assert (Hin : In (listed_turn "." ["lib"] "./lib" [("util.py", File); ("build", File)])
                   (st_trace (generate_tree "."
                      (fresh_world "/home/u/proj" (Listed tree_with_build)))))
    by (vm_compute; tauto).
  assert (He : In ("build", File) [("util.py", File); ("build", File)])
    by (simpl; tauto).
  exact (every_file_is_printed "."
           (fresh_world "/home/u/proj" (Listed tree_with_build))
           (listed_turn "." ["lib"] "./lib" [("util.py", File); ("build", File)])
           [("util.py", File); ("build", File)] "build" File Hin eq_refl He eq_refl).
Defined.

(** ** What a run leaves alone *)

Lemma print_frame (line : string) (w : world) :
  w_cwd (print line w) = w_cwd w /\
  w_fs (print line w) = w_fs w /\
  w_stderr (print line w) = w_stderr w /\
  w_stdout (print line w) = w_stdout w ++ [line].
Proof. repeat split. Qed.

(** C9. A turn of the walk, and so a whole run, leaves the tree, the
    current directory and the error stream as they were; standard output
    keeps what it held and receives lines at its end. *)
Theorem only_stdout_changes (sp : string) (w : world) :
  (forall st st',
      walk_step None sp st = Resumed st' ->
      w_fs (st_world st') = w_fs (st_world st) /\
      w_cwd (st_world st') = w_cwd (st_world st) /\
      w_stderr (st_world st') = w_stderr (st_world st) /\
      exists lines, w_stdout (st_world st') = w_stdout (st_world st) ++ lines) /\
  w_fs (st_world (generate_tree sp w)) = w_fs w /\
  w_cwd (st_world (generate_tree sp w)) = w_cwd w /\
  w_stderr (st_world (generate_tree sp w)) = w_stderr w /\
  exists lines, w_stdout (st_world (generate_tree sp w)) = w_stdout w ++ lines.
Proof.
  split.
  - intros st st'. unfold walk_step.
    destruct (st_stack st) as [|fr stack]; [discriminate|].
    destruct (scandir fr) as [es|e].
    + unfold loop_body. intros [= <-]. cbn [st_world].
      destruct (print_all_frame (map snd
                  ((if String.eqb (f_top fr) sp then []
                    else [(DirOf (f_rel fr), dir_line sp (f_top fr))])
                   ++ map (fun '(i, f) =>
                             (FileOf (f_rel fr) f,
                              file_line sp (f_top fr) (length (walk_nondirs es)) i f))
                          (enumerate (walk_nondirs es))))
                  (st_world st)) as (H1 & H2 & H3).
      repeat split; try assumption.
      eexists. apply print_all_stdout.
    + intros [= <-]. cbn [st_world]. repeat split. exists []. symmetry. apply app_nil_r.
  - rewrite generate_tree_spec. cbn [st_world].
    destruct (print_all_frame
                (map snd (printed (frame_trace sp (root_frame sp w))))
                (print separator (print (header (w_cwd w) sp) w))) as (H1 & H2 & H3).
    rewrite H1, H2, H3, print_all_stdout. repeat split.
    eexists. cbn [print w_stdout]. rewrite <- !app_assoc. reflexivity.
Qed.

Lemma only_stdout_changes_witness :
  w_fs (st_world (mkState
                    (mkWorld "/home/u/proj" (Listed tree_one_file)
                       ["Project Structure: proj";
                        "========================================"; "│   └── a.txt"]
                       ["earlier warning"])
                    [] [listed_turn "." [] "." tree_one_file]))
  = Listed tree_one_file /\
  w_stderr (st_world (generate_tree "."
              (mkWorld "/home/u/proj" (Listed tree_one_file) [] ["earlier warning"])))
  = ["earlier warning"].
Proof.
  destruct (only_stdout_changes "."
              (mkWorld "/home/u/proj" (Listed tree_one_file) [] ["earlier warning"]))
    as (Hstep & _ & _ & Herr & _).
  split; [|exact Herr].
  assert (Hs : walk_step None "."
                 (start "." (mkWorld "/home/u/proj" (Listed tree_one_file) []
                               ["earlier warning"]))
               = Resumed
                   (mkState
                      (mkWorld "/home/u/proj" (Listed tree_one_file)
                         ["Project Structure: proj";
                          "========================================"; "│   └── a.txt"]
                         ["earlier warning"])
                      [] [listed_turn "." [] "." tree_one_file]))
    by (vm_compute; reflexivity).
  destruct (Hstep _ _ Hs) as (Hfs & _). exact Hfs.
Defined.

(** ** Termination *)

(** C10. However large the tree, the loop ends: with fuel for one turn per
    real directory and one for the start path, [generate_tree] returns, with
    an empty stack.  Each turn strictly lowers the count of directories
    still to be listed, and a symbolic link to a directory is never pushed,
    so it is never listed and cannot bring the walk back to a directory
    already seen. *)
Theorem generate_tree_terminates (sp : string) (w : world) (fuel : nat) :
  pending [root_frame sp w] <= fuel ->
  generate_tree_fuel fuel sp w = Returned (generate_tree sp w) /\
  st_stack (generate_tree sp w) = [] /\
  pending [root_frame sp w]
  = match w_fs w with
    | Listed es => S (ndirs_in es)
    | Failed _ => 1
    end /\
  (forall st st',
      walk_step None sp st = Resumed st' ->
      pending (st_stack st') < pending (st_stack st)) /\
  (forall rel top d, islink (snd d) = true -> push_dir rel top d = []).
Proof.
  intros Hfuel. split; [|split; [|split; [|split]]].
  - rewrite generate_tree_spec. apply generate_tree_fuel_spec, Hfuel.
  - rewrite generate_tree_spec. reflexivity.
  - unfold pending, frame_size, root_frame. cbn [map f_ls list_sum fold_right].
    destruct (w_fs w); lia.
  - intros st st'. apply walk_step_pending.
  - intros rel top [name [|target|readable es]]; try discriminate. reflexivity.
Qed.

Lemma generate_tree_terminates_witness :
  pending [root_frame "." (fresh_world "/home/u/proj" (Listed tree_with_loop))] <= 2 /\
  generate_tree_fuel 2 "." (fresh_world "/home/u/proj" (Listed tree_with_loop))
  = Returned (generate_tree "." (fresh_world "/home/u/proj" (Listed tree_with_loop))) /\
  w_stdout (st_world (generate_tree "." (fresh_world "/home/u/proj" (Listed tree_with_loop))))
  = ["Project Structure: proj"; "========================================";
     "│   ├── src/"; "│   │   └── main.py"].
Proof.
  assert (H : pending [root_frame "." (fresh_world "/home/u/proj"
                                         (Listed tree_with_loop))] <= 2)
    by (vm_compute; lia).
  split; [exact H|]. split.
  - exact (proj1 (generate_tree_terminates "."
                    (fresh_world "/home/u/proj" (Listed tree_with_loop)) 2 H)).
  - vm_compute. reflexivity.
Defined.

(** ** The order of the turns *)

Lemma snoc_split {A : Type} (l : list A) (x : A) (before : list A) (y : A)
    (after : list A) :
  l ++ [x] = before ++ y :: after ->
  (after = [] /\ before = l /\ y = x) \/
  (exists after', after = after' ++ [x] /\ l = before ++ y :: after').
Proof.
  destruct after as [|z after] using rev_ind.
  - intros H. left. apply app_inj_tail in H. destruct H as [-> ->]. auto.
  - intros H. right. exists after.
    change (before ++ y :: after ++ [z]) with (before ++ (y :: after) ++ [z]) in H.
    rewrite app_assoc in H. apply app_inj_tail in H. destruct H as [-> ->]. auto.
Qed.

Lemma scandir_listed_top (fr : frame) (es : entries) :
  scandir fr = Listed es -> f_top fr <> "".
Proof.
  unfold scandir. destruct (String.eqb_spec (f_top fr) ""); [discriminate | auto].
Qed.

Lemma scandir_pushed (parent : iteration) (fr : frame) :
  it_top parent <> "" -> pushed_child parent fr -> scandir fr = f_ls fr.
Proof.
  intros Htop (es & name & readable & sub & _ & _ & _ & _ & Hj & _).
  unfold scandir. rewrite Hj.
  destruct (String.eqb_spec (PosixPath.join (it_top parent) name) "") as [E|]; [|reflexivity].
  exfalso. exact (join_not_empty _ _ Htop E).
Qed.

Lemma in_pushed (rel : list string) (top : string) (es : entries) (fr : frame) :
  In fr (flat_map (push_dir rel top)
           (filter (fun d => negb (in_exclude_dirs (fst d))) (walk_dirs es))) ->
  exists name readable sub,
    In (name, Dir readable sub) es /\ in_exclude_dirs name = false /\
    f_rel fr = rel ++ [name] /\ f_top fr = PosixPath.join top name /\
    f_ls fr = (if readable then Listed sub else Failed PermissionError).
Proof.
  intros Hin. apply in_flat_map in Hin. destruct Hin as ([name n] & Hd & Hfr).
  apply filter_In in Hd. destruct Hd as [Hd Hk].
  apply filter_In in Hd. destruct Hd as [Hd Hdir].
  cbn [fst snd] in *. apply negb_true_iff in Hk.
  destruct n as [|target|readable sub]; [discriminate Hdir | destruct Hfr |].
  destruct Hfr as [<-|[]]. exists name, readable, sub. cbn [f_rel f_top f_ls].
  repeat (split; [first [assumption | reflexivity]|]). reflexivity.
Qed.

(** A turn of the loop keeps the invariant. *)
Lemma walk_step_invariant (sp : string) (st st' : state) :
  walk_step None sp st = Resumed st' ->
  walk_invariant sp st -> walk_invariant sp st'.
Proof.
  intros Hstep (Hord & Htops & Hstack).
  destruct (st_stack st) as [|fr stack] eqn:Hs;
    [unfold walk_step in Hstep; rewrite Hs in Hstep; discriminate|].
  assert (Hfr := Hstack fr (or_introl eq_refl)).
  (* the turn that the step appends, and why it is in its place *)
  assert (Hnew : forall t,
             it_rel t = f_rel fr -> it_top t = f_top fr -> it_found t = scandir fr ->
             top_down sp (st_trace st ++ [t])).
  { intros t Hrel Htop Hfound before it after Heq.
    apply snoc_split in Heq. destruct Heq as [(-> & -> & ->)|(after' & -> & Heq)].
    - destruct Hfr as [(Htr & _ & Hr & Ht)|(parent & Hp & Hchild)].
      + left. rewrite Htr, Hrel, Htop. repeat (split; [first [assumption | reflexivity]|]). assumption.
      + right. exists parent. split; [exact Hp|].
        assert (Hsc : scandir fr = f_ls fr).
        { destruct Hchild as (es & Hrest). destruct Hrest as (name & readable & sub & Hf & Hrest).
          apply (scandir_pushed parent); [exact (Htops parent es Hp Hf)|].
          exists es, name, readable, sub. tauto. }
        destruct Hchild as (es & name & readable & sub & H1 & H2 & H3 & H4 & H5 & H6).
        exists es, name, readable, sub.
        rewrite Hrel, Htop, Hfound, Hsc. repeat (split; [assumption|]). assumption.
    - exact (Hord before it after' Heq). }
  assert (Hold : forall fr' t,
             In fr' stack ->
             (st_trace st ++ [t] = [] /\ False) \/
             (exists parent, In parent (st_trace st ++ [t]) /\ pushed_child parent fr')).
  { intros fr' t Hin. right.
    destruct (Hstack fr' (or_intror Hin)) as [(_ & Hone & _)|(parent & Hp & Hc)].
    - injection Hone as _ ->. destruct Hin.
    - exists parent. split; [apply in_or_app; left; exact Hp | exact Hc]. }
  destruct (scandir fr) as [es|e] eqn:Hscan.
  - rewrite (walk_step_listed sp st fr stack es Hs Hscan) in Hstep.
    injection Hstep as <-. cbn [st_trace st_stack].
    split; [|split].
    + apply Hnew; reflexivity.
    + intros it es' Hin Hf. apply in_app_or in Hin. destruct Hin as [Hin|[<-|[]]].
      * exact (Htops it es' Hin Hf).
      * apply (scandir_listed_top fr es), Hscan.
    + intros fr' Hin. apply in_app_or in Hin. destruct Hin as [Hin|Hin].
      * right. exists (listed_turn sp (f_rel fr) (f_top fr) es).
        split; [apply in_or_app; right; left; reflexivity|].
        unfold loop_body in Hin. cbn [fst] in Hin.
        destruct (in_pushed _ _ _ _ Hin) as (name & readable & sub & H1 & H2 & H3 & H4 & H5).
        exists es, name, readable, sub. cbn [listed_turn it_found it_rel it_top].
        repeat (split; [first [assumption | reflexivity]|]). assumption.
      * destruct (Hold fr' (listed_turn sp (f_rel fr) (f_top fr) es) Hin) as [[_ []]|H].
        right. exact H.
  - rewrite (walk_step_failed sp st fr stack e Hs Hscan) in Hstep.
    injection Hstep as <-. cbn [st_trace st_stack].
    split; [|split].
    + apply Hnew; reflexivity.
    + intros it es' Hin Hf. apply in_app_or in Hin. destruct Hin as [Hin|[<-|[]]].
      * exact (Htops it es' Hin Hf).
      * discriminate Hf.
    + intros fr' Hin.
      destruct (Hold fr' (failed_turn (f_rel fr) (f_top fr) e) Hin) as [[_ []]|H].
      right. exact H.
Qed.

Lemma walk_loop_invariant (sp : string) (fuel : nat) :
  forall st st',
    walk_loop sp fuel st = Returned st' ->
    walk_invariant sp st -> walk_invariant sp st'.
Proof.
  induction fuel as [|k IH]; intros st st'; cbn [walk_loop];
    destruct (walk_step None sp st) as [|st1|e st1] eqn:Hstep;
    try discriminate.
  - intros [= <-]. auto.
  - intros [= <-]. auto.
  - intros Hloop Hinv. apply (IH st1 st' Hloop).
    exact (walk_step_invariant sp st st1 Hstep Hinv).
Qed.

Lemma start_invariant (sp : string) (w : world) : walk_invariant sp (start sp w).
Proof.
  unfold start. split; [|split]; cbn [st_trace st_stack].
  - intros before it after H. destruct before; discriminate H.
  - intros it es [].
  - intros fr [<-|[]]. left. auto.
Qed.

Lemma generate_tree_invariant (sp : string) (w : world) :
  walk_invariant sp (generate_tree sp w).
Proof.
  apply (walk_loop_invariant sp (pending [root_frame sp w]) (start sp w)).
  - rewrite generate_tree_spec. apply (generate_tree_fuel_spec sp w). lia.
  - apply start_invariant.
Qed.

Lemma top_down_parent (sp : string) (tr : list iteration) (t : iteration) :
  top_down sp tr -> In t tr -> it_rel t <> [] ->
  exists parent, In parent tr /\ listed_child parent t.
Proof.
  intros Hord Hin Hne. apply in_split in Hin. destruct Hin as (before & after & ->).
  destruct (Hord before t after eq_refl) as [(_ & Hrel & _)|(parent & Hp & Hc)];
    [contradiction|].
  exists parent. split; [apply in_or_app; left; exact Hp | exact Hc].
Qed.

(** Whatever lies below the entry [x] of the directory at [p] was reached
    through a turn for [p] that found [x] as a sub-directory to go into. *)
Lemma top_down_ancestor (sp : string) (tr : list iteration) :
  top_down sp tr ->
  forall q t p x,
    In t tr -> it_rel t = p ++ x :: q ->
    exists parent es readable sub,
      In parent tr /\ it_rel parent = p /\ it_found parent = Listed es /\
      In (x, Dir readable sub) es /\ in_exclude_dirs x = false /\
      (q <> [] -> readable = true).
Proof.
  intros Hord q. induction q as [|y q IH] using rev_ind; intros t p x Hin Hrel.
  - destruct (top_down_parent sp tr t Hord Hin) as (parent & Hp & Hc);
      [rewrite Hrel; destruct p; discriminate|].
    destruct Hc as (es & name & readable & sub & H1 & H2 & H3 & H4 & _).
    rewrite Hrel in H4. apply app_inj_tail in H4. destruct H4 as [Hpp Hxx].
    subst name. exists parent, es, readable, sub.
    repeat (split; [first [assumption | reflexivity | symmetry; assumption]|]).
    intros []. reflexivity.
  - destruct (top_down_parent sp tr t Hord Hin) as (parent & Hp & Hc);
      [rewrite Hrel; destruct p; discriminate|].
    destruct Hc as (es & name & readable & sub & H1 & H2 & H3 & H4 & _).
    rewrite Hrel in H4.
    change (p ++ x :: q ++ [y]) with (p ++ (x :: q) ++ [y]) in H4.
    rewrite app_assoc in H4. apply app_inj_tail in H4. destruct H4 as [H4 Hyy].
    subst name.
    destruct q as [|z q].
    + (* the parent is the turn for [p ++ [x]]: it lists, so [x] is readable *)
      destruct (top_down_parent sp tr parent Hord Hp) as (gp & Hgp & Hgc);
        [rewrite <- H4; destruct p; discriminate|].
      destruct Hgc as (es' & name' & readable' & sub' & G1 & G2 & G3 & G4 & _ & G6).
      rewrite <- H4 in G4. apply app_inj_tail in G4. destruct G4 as [Gp Gx].
      subst name'. exists gp, es', readable', sub'.
      repeat (split; [first [assumption | reflexivity | symmetry; assumption]|]).
      intros _.
      rewrite H1 in G6. destruct readable'; [reflexivity | discriminate G6].
    + destruct (IH parent p x Hp (eq_sym H4)) as (a & es' & r' & sub' & A1 & A2 & A3 & A4 & A5 & A6).
      exists a, es', r', sub'.
      repeat (split; [first [assumption | reflexivity]|]). intros _.
      apply A6. destruct q; discriminate.
Qed.

(** X3. The turns of a run go top-down.  The first turn is for the start
    path; every later turn is for a sub-directory that an earlier turn found
    when it listed its parent: a real directory (not a link) whose name is
    not in the exclusion set, reached at [join(parent, name)], and listed
    successfully exactly when it is readable. *)
Theorem turns_go_top_down (sp : string) (w : world)
    (before : list iteration) (it : iteration) (after : list iteration) :
  st_trace (generate_tree sp w) = before ++ it :: after ->
  (before = [] /\ it_rel it = [] /\ it_top it = sp) \/
  (exists parent es name readable sub,
      In parent before /\
      it_found parent = Listed es /\
      In (name, Dir readable sub) es /\
      in_exclude_dirs name = false /\
      it_rel it = it_rel parent ++ [name] /\
      it_top it = PosixPath.join (it_top parent) name /\
      it_found it = (if readable then Listed sub else Failed PermissionError)).
Proof.
  intros Heq. destruct (generate_tree_invariant sp w) as (Hord & _).
  destruct (Hord before it after Heq) as [H|(parent & Hp & Hc)]; [left; exact H|].
  right. destruct Hc as (es & name & readable & sub & Hc).
  exists parent, es, name, readable, sub. tauto.
Qed.

Lemma turns_go_top_down_witness :
  (([listed_turn "." [] "." tree_src_main] : list iteration) = [] /\
   it_rel (listed_turn "." ["src"] "./src" [("main.go", File)]) = [] /\
   it_top (listed_turn "." ["src"] "./src" [("main.go", File)]) = ".") \/
  (exists parent es name readable sub,
      In parent [listed_turn "." [] "." tree_src_main] /\
      it_found parent = Listed es /\
      In (name, Dir readable sub) es /\
      in_exclude_dirs name = false /\
      it_rel (listed_turn "." ["src"] "./src" [("main.go", File)])
      = it_rel parent ++ [name] /\
      it_top (listed_turn "." ["src"] "./src" [("main.go", File)])
      = PosixPath.join (it_top parent) name /\
      it_found (listed_turn "." ["src"] "./src" [("main.go", File)])
      = (if readable then Listed sub else Failed PermissionError)).
Proof.
  apply (turns_go_top_down "." (fresh_world "/home/u/proj" (Listed tree_src_main))
           [listed_turn "." [] "." tree_src_main]
           (listed_turn "." ["src"] "./src" [("main.go", File)]) []).
  vm_compute. reflexivity.
Defined.

(** ** No directory twice *)

Lemma nodupb_cons (x : string) (l : list string) :
  nodupb (x :: l) = true -> ~ In x l /\ nodupb l = true.
Proof.
  cbn [nodupb]. intros H. apply andb_prop in H. destruct H as [Hx Hl].
  split; [|exact Hl]. intros Hin. apply negb_true_iff in Hx.
  assert (Ht : existsb (String.eqb x) l = true).
  { apply existsb_exists. exists x. split; [exact Hin | apply String.eqb_refl]. }
  congruence.
Qed.

Lemma nodupb_unique (es : entries) (name : string) (n1 n2 : node) :
  nodupb (map fst es) = true ->
  In (name, n1) es -> In (name, n2) es -> n1 = n2.
Proof.
  induction es as [|[x c] es IH]; intros Hnd H1 H2; [destruct H1|].
  cbn [map fst] in Hnd. apply nodupb_cons in Hnd. destruct Hnd as [Hx Hnd].
  destruct H1 as [E1|H1]; destruct H2 as [E2|H2].
  - congruence.
  - exfalso. apply Hx. apply (in_map fst) in H2. injection E1 as -> _. exact H2.
  - exfalso. apply Hx. apply (in_map fst) in H1. injection E2 as -> _. exact H1.
  - exact (IH Hnd H1 H2).
Qed.

Lemma child_rel_differs (rel : list string) (x : string) (q : list string) :
  rel <> rel ++ x :: q.
Proof.
  intros H. rewrite <- (app_nil_r rel) in H at 1.
  apply app_inv_head in H. discriminate H.
Qed.

(** With pairwise different names in every directory, the turns below a
    directory are for pairwise different paths, and each listing has
    pairwise different names. *)
Lemma node_trace_nodup (sp : string) (n : node) :
  forall rel top,
    distinct_names n = true ->
    NoDup (map it_rel (node_trace sp rel top n)) /\
    (forall it es,
        In it (node_trace sp rel top n) -> it_found it = Listed es ->
        nodupb (map fst es) = true).
Proof.
  induction n as [|target|readable es IH] using node_induction; intros rel top Hd.
  - split; [repeat constructor; intros [] | intros it es [<-|[]]; discriminate].
  - split; [constructor | intros it es []].
  - destruct readable;
      [|split; [repeat constructor; intros [] | intros it es' [<-|[]]; discriminate]].
    cbn [distinct_names] in Hd. apply andb_prop in Hd. destruct Hd as [Hnames Hsub].
    cbn [node_trace].
    assert (Hkids :
      NoDup (map it_rel
               (flat_map (fun d =>
                            if descends d
                            then node_trace sp (rel ++ [fst d])
                                            (PosixPath.join top (fst d)) (snd d)
                            else [])
                         es)) /\
      (forall it es',
          In it (flat_map (fun d =>
                             if descends d
                             then node_trace sp (rel ++ [fst d])
                                             (PosixPath.join top (fst d)) (snd d)
                             else [])
                          es) ->
          it_found it = Listed es' -> nodupb (map fst es') = true)).
    { clear - IH Hnames Hsub.
      induction es as [|[name c] es IHes]; [split; [constructor | intros it es' []]|].
      inversion IH as [|? ? Hc IH']; subst. cbn [snd] in Hc.
      cbn [map fst] in Hnames. apply nodupb_cons in Hnames. destruct Hnames as [Hname Hnames].
      cbn [forallb snd] in Hsub. apply andb_prop in Hsub. destruct Hsub as [Hdc Hsub].
      destruct (IHes IH' Hnames Hsub) as [Hnd Hls].
      cbn [flat_map fst snd]. rewrite map_app.
      destruct (descends (name, c)).
      - destruct (Hc (rel ++ [name]) (PosixPath.join top name) Hdc) as [Hndc Hlsc].
        split.
        + apply NoDup_app; [exact Hndc | exact Hnd |].
          intros r Hr1 Hr2.
          apply in_map_iff in Hr1. destruct Hr1 as (it1 & <- & Hin1).
          apply in_map_iff in Hr2. destruct Hr2 as (it2 & Heq & Hin2).
          destruct (node_trace_inv sp c _ _ _ Hin1) as (q1 & Hq1 & _).
          apply in_flat_map in Hin2. destruct Hin2 as (d & Hd & Hin2).
          destruct (descends d); [|destruct Hin2].
          destruct (node_trace_inv sp (snd d) _ _ _ Hin2) as (q2 & Hq2 & _).
          rewrite Hq1, Hq2, <- !app_assoc in Heq. apply app_inv_head in Heq.
          injection Heq as Hn _. apply Hname. rewrite <- Hn.
          apply (in_map fst) in Hd. exact Hd.
        + intros it es' Hin Hf. apply in_app_or in Hin. destruct Hin as [Hin|Hin].
          * exact (Hlsc it es' Hin Hf).
          * exact (Hls it es' Hin Hf).
      - split; [exact Hnd | exact Hls]. }
    destruct Hkids as [Hnd Hls]. split.
    + cbn [map it_rel listed_turn]. constructor; [|exact Hnd].
      intros Hin. apply in_map_iff in Hin. destruct Hin as (it & Heq & Hin).
      apply in_flat_map in Hin. destruct Hin as (d & Hd & Hin).
      destruct (descends d); [|destruct Hin].
      destruct (node_trace_inv sp (snd d) _ _ _ Hin) as (q & Hq & _).
      rewrite Hq, <- app_assoc in Heq. exact (child_rel_differs rel (fst d) q (eq_sym Heq)).
    + intros it es' [<-|Hin] Hf.
      * cbn [listed_turn it_found] in Hf. injection Hf as <-. exact Hnames.
      * exact (Hls it es' Hin Hf).
Qed.

Lemma trace_nodup (sp : string) (w : world) :
  listing_distinct (w_fs w) = true ->
  NoDup (map it_rel (st_trace (generate_tree sp w))) /\
  (forall it es,
      In it (st_trace (generate_tree sp w)) -> it_found it = Listed es ->
      nodupb (map fst es) = true).
Proof.
  intros Hd. rewrite generate_tree_spec. cbn [st_trace]. unfold frame_trace.
  destruct (scandir (root_frame sp w)) as [es|e] eqn:Hscan.
  - apply node_trace_nodup.
    unfold scandir, root_frame in Hscan. cbn [f_top f_ls] in Hscan.
    destruct (String.eqb sp ""); [discriminate|]. rewrite Hscan in Hd. exact Hd.
  - split; [repeat constructor; intros [] | intros it es [<-|[]]; discriminate].
Qed.

Lemma nodup_map_eq {A B : Type} (f : A -> B) (l : list A) (a b : A) :
  NoDup (map f l) -> In a l -> In b l -> f a = f b -> a = b.
Proof.
  induction l as [|x l IH]; intros Hnd Ha Hb Heq; [destruct Ha|].
  cbn [map] in Hnd. inversion Hnd as [|? ? Hx Hnd']; subst.
  destruct Ha as [->|Ha]; destruct Hb as [->|Hb].
  - reflexivity.
  - exfalso. apply Hx. rewrite Heq. apply in_map, Hb.
  - exfalso. apply Hx. rewrite <- Heq. apply in_map, Ha.
  - exact (IH Hnd' Ha Hb Heq).
Qed.

Lemma nodupb_NoDup (l : list string) : nodupb l = true -> NoDup l.
Proof.
  induction l as [|x l IH]; intros H; [constructor|].
  apply nodupb_cons in H. destruct H as [Hx Hl]. constructor; auto.
Qed.

Lemma NoDup_map_fst_filter {A B : Type} (p : A * B -> bool) (l : list (A * B)) :
  NoDup (map fst l) -> NoDup (map fst (filter p l)).
Proof.
  induction l as [|x l IH]; intros H; [constructor|].
  cbn [map] in H. inversion H as [|? ? Hx Hl]; subst. cbn [filter].
  destruct (p x); [|exact (IH Hl)].
  cbn [map]. constructor; [|exact (IH Hl)].
  intros Hin. apply Hx. apply in_map_iff in Hin. destruct Hin as (y & Hy & Hin).
  apply filter_In in Hin. destruct Hin as [Hin _]. rewrite <- Hy. apply in_map, Hin.
Qed.

Lemma NoDup_map_injective {A B : Type} (f : A -> B) (l : list A) :
  (forall a b, f a = f b -> a = b) -> NoDup l -> NoDup (map f l).
Proof.
  intros Hinj. induction 1 as [|x l Hx Hl IH]; cbn [map]; constructor; [|exact IH].
  intros Hin. apply in_map_iff in Hin. destruct Hin as (y & Hy & Hin).
  apply Hinj in Hy. subst y. contradiction.
Qed.

Lemma turn_owners (sp : string) (it : iteration) (es : entries) :
  turn_ok sp it -> it_found it = Listed es ->
  map fst (it_prints it)
  = (if String.eqb (it_top it) sp then [] else [DirOf (it_rel it)])
    ++ map (FileOf (it_rel it)) (walk_nondirs es).
Proof.
  intros Hok Hf. rewrite (turn_prints sp it es Hok Hf), map_app, file_owners.
  destruct (String.eqb (it_top it) sp); reflexivity.
Qed.

Lemma turn_owners_nodup (sp : string) (it : iteration) :
  turn_ok sp it ->
  (forall es, it_found it = Listed es -> nodupb (map fst es) = true) ->
  NoDup (map fst (it_prints it)).
Proof.
  intros Hok Hnames. destruct (it_found it) as [es|e] eqn:Hf.
  - rewrite (turn_owners sp it es Hok Hf).
    assert (Hfiles : NoDup (map (FileOf (it_rel it)) (walk_nondirs es))).
    { apply NoDup_map_injective; [intros a b [= ->]; reflexivity|].
      unfold walk_nondirs. apply NoDup_map_fst_filter, nodupb_NoDup, Hnames. reflexivity. }
    destruct (String.eqb (it_top it) sp); [exact Hfiles|].
    cbn [app]. constructor; [|exact Hfiles].
    intros Hin. apply in_map_iff in Hin. destruct Hin as (f & Hf' & _). discriminate Hf'.
  - unfold turn_ok in Hok. rewrite Hf in Hok. rewrite Hok. constructor.
Qed.

Lemma owners_nodup (sp : string) (tr : list iteration) :
  NoDup (map it_rel tr) ->
  (forall it, In it tr -> turn_ok sp it) ->
  (forall it es, In it tr -> it_found it = Listed es -> nodupb (map fst es) = true) ->
  NoDup (owners tr).
Proof.
  induction tr as [|it tr IH]; intros Hnd Hok Hnames; [constructor|].
  cbn [map] in Hnd. inversion Hnd as [|? ? Hx Hnd']; subst.
  rewrite owners_cons. apply NoDup_app.
  - apply (turn_owners_nodup sp); [apply Hok; left; reflexivity|].
    intros es. apply Hnames. left. reflexivity.
  - apply IH; [exact Hnd' | intros; apply Hok; right; assumption |].
    intros it' es Hin. apply Hnames. right. exact Hin.
  - intros o Ho1 Ho2. apply Hx.
    apply in_map_iff in Ho1. destruct Ho1 as ([o1 l1] & <- & Hin1).
    unfold owners in Ho2. apply in_map_iff in Ho2. destruct Ho2 as ([o2 l2] & Heq & Hin2).
    cbn [fst] in Heq. subst o2.
    apply in_printed in Hin2. destruct Hin2 as (it2 & Hit2 & Hin2).
    rewrite <- (turn_owner sp it o1 l1 (Hok it (or_introl eq_refl)) Hin1).
    rewrite (turn_owner sp it2 o1 l2 (Hok it2 (or_intror Hit2)) Hin2).
    apply in_map, Hit2.
Qed.

(** X4. When the names in every directory are pairwise different, no
    directory is passed to [scandir] twice and no two printed lines are
    about the same directory or file. *)
Theorem nothing_is_printed_twice (sp : string) (w : world) :
  listing_distinct (w_fs w) = true ->
  NoDup (map it_rel (st_trace (generate_tree sp w))) /\
  NoDup (owners (st_trace (generate_tree sp w))).
Proof.
  intros Hd. destruct (trace_nodup sp w Hd) as [Hnd Hnames].
  split; [exact Hnd|].
  apply (owners_nodup sp); [exact Hnd | | exact Hnames].
  intros it Hin. apply (trace_inv sp w it Hin).
Qed.

Lemma nothing_is_printed_twice_witness :
  NoDup (owners (st_trace (generate_tree "."
                   (fresh_world "/home/u/proj" (Listed tree_mixed))))).
Proof.
  exact (proj2 (nothing_is_printed_twice "."
                  (fresh_world "/home/u/proj" (Listed tree_mixed)) eq_refl)).
Defined.

(** X5. When the names in every directory are pairwise different and
    listing a directory fails, the walk visits nothing beneath that
    directory, and no line is printed about it or about anything
    beneath it. *)
Theorem nothing_below_an_unlistable_directory (sp : string) (w : world)
    (it : iteration) (e : oserror) :
  listing_distinct (w_fs w) = true ->
  In it (st_trace (generate_tree sp w)) ->
  it_found it = Failed e ->
  (forall t x q,
      In t (st_trace (generate_tree sp w)) -> it_rel t <> it_rel it ++ x :: q) /\
  (forall o line q,
      In (o, line) (printed (st_trace (generate_tree sp w))) ->
      owner_dir o <> it_rel it ++ q).
Proof.
  intros Hd Hin Hfail.
  destruct (trace_nodup sp w Hd) as [Hnd _].
  destruct (generate_tree_invariant sp w) as (Hord & _).
  assert (Hbelow : forall t x q,
             In t (st_trace (generate_tree sp w)) -> it_rel t <> it_rel it ++ x :: q).
  { intros t x q Ht Hrel.
    destruct (top_down_ancestor sp _ Hord q t (it_rel it) x Ht Hrel)
      as (parent & es & readable & sub & Hp & Hprel & Hpf & _).
    rewrite (nodup_map_eq it_rel _ parent it Hnd Hp Hin Hprel) in Hpf. congruence. }
  split; [exact Hbelow|].
  intros o line q Hprinted Hrel.
  apply in_printed in Hprinted. destruct Hprinted as (t & Ht & Hline).
  pose proof (trace_inv sp w t Ht) as (_ & _ & Hok).
  rewrite (turn_owner sp t o line Hok Hline) in Hrel.
  destruct q as [|x q].
  - rewrite app_nil_r in Hrel.
    rewrite (nodup_map_eq it_rel _ t it Hnd Ht Hin Hrel) in Hline, Hok.
    unfold turn_ok in Hok. rewrite Hfail in Hok. rewrite Hok in Hline. destruct Hline.
  - exact (Hbelow t x q Ht Hrel).
Qed.

Lemma nothing_below_an_unlistable_directory_witness :
  In (failed_turn ["locked"] "./locked" PermissionError)
     (st_trace (generate_tree "." (fresh_world "/home/u/proj" (Listed tree_mixed)))) /\
  (forall o line q,
      In (o, line) (printed (st_trace (generate_tree "."
                               (fresh_world "/home/u/proj" (Listed tree_mixed))))) ->
      owner_dir o <> ["locked"] ++ q).
Proof.
  assert (Hin : In (failed_turn ["locked"] "./locked" PermissionError)
                   (st_trace (generate_tree "."
                      (fresh_world "/home/u/proj" (Listed tree_mixed)))))
    by (vm_compute; tauto).
  split; [exact Hin|].
  exact (proj2 (nothing_below_an_unlistable_directory "."
                  (fresh_world "/home/u/proj" (Listed tree_mixed))
                  (failed_turn ["locked"] "./locked" PermissionError)
                  PermissionError eq_refl Hin eq_refl)).
Defined.

(** X6. When the names in every directory are pairwise different, a turn
    for a path that goes through the entry [x] of a listed directory exists
    only if [x] is a real directory whose name is not excluded -- never a
    file and never a symbolic link -- and a turn strictly below [x] exists
    only if [x] can be listed. *)
Theorem only_kept_real_directories_are_entered (sp : string) (w : world)
    (it : iteration) (es : entries) (x : string) (n : node)
    (t : iteration) (q : list string) :
  listing_distinct (w_fs w) = true ->
  In it (st_trace (generate_tree sp w)) ->
  it_found it = Listed es ->
  In (x, n) es ->
  In t (st_trace (generate_tree sp w)) ->
  it_rel t = it_rel it ++ x :: q ->
  exists readable sub,
    n = Dir readable sub /\ in_exclude_dirs x = false /\ (q <> [] -> readable = true).
Proof.
  intros Hd Hin Hfound Hentry Ht Hrel.
  destruct (trace_nodup sp w Hd) as [Hnd Hnames].
  destruct (generate_tree_invariant sp w) as (Hord & _).
  destruct (top_down_ancestor sp _ Hord q t (it_rel it) x Ht Hrel)
    as (parent & es' & readable & sub & Hp & Hprel & Hpf & Hpe & Hk & Hr).
  rewrite (nodup_map_eq it_rel _ parent it Hnd Hp Hin Hprel) in Hpf.
  rewrite Hfound in Hpf. injection Hpf as <-.
  exists readable, sub. split; [|split; assumption].
  exact (nodupb_unique es x n _ (Hnames it es Hin Hfound) Hentry Hpe).
Qed.

Lemma only_kept_real_directories_are_entered_witness :
  exists readable sub,
    Dir true [("guide.md", File); ("img", Dir true [("logo.png", File)])]
    = Dir readable sub /\
    in_exclude_dirs "docs" = false /\
    (["img"] <> [] -> readable = true).
Proof.
  assert (Hroot : In (listed_turn "." [] "." tree_mixed)
                     (st_trace (generate_tree "."
                        (fresh_world "/home/u/proj" (Listed tree_mixed)))))
    by (vm_compute; tauto).
  assert (Himg : In (listed_turn "." ["docs"; "img"] "./docs/img" [("logo.png", File)])
                    (st_trace (generate_tree "."
                       (fresh_world "/home/u/proj" (Listed tree_mixed)))))
    by (vm_compute; tauto).
  assert (Hentry : In ("docs", Dir true [("guide.md", File);
                                         ("img", Dir true [("logo.png", File)])])
                      tree_mixed)
    by (simpl; tauto).
  exact (only_kept_real_directories_are_entered "."
           (fresh_world "/home/u/proj" (Listed tree_mixed))
           (listed_turn "." [] "." tree_mixed) tree_mixed "docs" _
           (listed_turn "." ["docs"; "img"] "./docs/img" [("logo.png", File)])
           ["img"] eq_refl Hroot eq_refl Hentry Himg eq_refl).
Defined.

(** ** Every kept sub-directory is entered *)

Lemma node_trace_first (sp : string) (rel : list string) (top : string)
    (readable : bool) (sub : entries) :
  exists it,
    In it (node_trace sp rel top (Dir readable sub)) /\
    it_rel it = rel /\ it_top it = top /\
    it_found it = (if readable then Listed sub else Failed PermissionError).
Proof.
  destruct readable; eexists; (split; [left; reflexivity|]); auto.
Qed.

Lemma node_trace_descends (sp : string) (n : node) :
  forall rel top it es name readable sub,
    In it (node_trace sp rel top n) ->
    it_found it = Listed es ->
    In (name, Dir readable sub) es ->
    in_exclude_dirs name = false ->
    exists child,
      In child (node_trace sp rel top n) /\
      it_rel child = it_rel it ++ [name] /\
      it_top child = PosixPath.join (it_top it) name /\
      it_found child = (if readable then Listed sub else Failed PermissionError).
Proof.
  induction n as [|target|r es0 IH] using node_induction;
    intros rel top it es name readable sub Hin Hf Hentry Hk.
  - destruct Hin as [<-|[]]. discriminate Hf.
  - destruct Hin.
  - destruct r; [|destruct Hin as [<-|[]]; discriminate Hf].
    cbn [node_trace] in *. destruct Hin as [<-|Hin].
    + cbn [listed_turn it_found it_rel it_top] in *. injection Hf as <-.
      destruct (node_trace_first sp (rel ++ [name]) (PosixPath.join top name) readable sub)
        as (child & Hc & H1 & H2 & H3).
      exists child. split; [|auto]. right.
      apply in_flat_map. exists (name, Dir readable sub). split; [exact Hentry|].
      unfold descends. cbn [fst snd is_dir]. rewrite Hk. exact Hc.
    + apply in_flat_map in Hin. destruct Hin as (d & Hd & Hin).
      destruct (descends d) eqn:Hdesc; [|destruct Hin].
      rewrite Forall_forall in IH.
      destruct (IH d Hd _ _ _ _ _ _ _ Hin Hf Hentry Hk) as (child & Hc & Hrest).
      exists child. split; [|exact Hrest]. right.
      apply in_flat_map. exists d. split; [exact Hd|]. rewrite Hdesc. exact Hc.
Qed.

(** X1. Every real sub-directory of a listed directory whose name is not
    in the exclusion set gets its own turn, for the path
    [join(top, name)]: it is listed with its entries when it is readable,
    and the listing fails with a permission error when it is not.  The
    comparison with the exclusion set is exact: [Build] is entered. *)
Theorem every_kept_subdirectory_is_entered (sp : string) (w : world)
    (it : iteration) (es : entries) (name : string) (readable : bool)
    (sub : entries) :
  In it (st_trace (generate_tree sp w)) ->
  it_found it = Listed es ->
  In (name, Dir readable sub) es ->
  in_exclude_dirs name = false ->
  exists child,
    In child (st_trace (generate_tree sp w)) /\
    it_rel child = it_rel it ++ [name] /\
    it_top child = PosixPath.join (it_top it) name /\
    it_found child = (if readable then Listed sub else Failed PermissionError).
Proof.
  rewrite generate_tree_spec. cbn [st_trace]. unfold frame_trace.
  destruct (scandir (root_frame sp w)) as [es0|e].
  - apply node_trace_descends.
  - intros [<-|[]] Hf. discriminate Hf.
Qed.

Lemma every_kept_subdirectory_is_entered_witness :
  exists child,
    In child (st_trace (generate_tree "."
                (fresh_world "/home/u/proj" (Listed tree_mixed)))) /\
    it_rel child = [] ++ ["Build"] /\
    it_top child = PosixPath.join "." "Build" /\
    it_found child = Listed [("notes.txt", File)].
Proof.
  assert (Hroot : In (listed_turn "." [] "." tree_mixed)
                     (st_trace (generate_tree "."
                        (fresh_world "/home/u/proj" (Listed tree_mixed)))))
    by (vm_compute; tauto).
  assert (Hentry : In ("Build", Dir true [("notes.txt", File)]) tree_mixed)
    by (simpl; tauto).
  exact (every_kept_subdirectory_is_entered "."
           (fresh_world "/home/u/proj" (Listed tree_mixed))
           (listed_turn "." [] "." tree_mixed) tree_mixed "Build" true
           [("notes.txt", File)] Hroot eq_refl Hentry eq_refl).
Defined.

(** ** Every line is about an entry *)





(** ** The root and its files *)

Lemma prefix_refl (s : string) : String.prefix s s = true.
Proof.
  induction s as [|a s IH]; [reflexivity|].
  simpl. destruct (ascii_dec a a); [exact IH | congruence].
Qed.

Lemma replace_from_skip (old : string) (s : string) :
  forall k, String.length s <= k -> PyStr.replace_from old "" k s = "".
Proof.
  induction s as [|a s IH]; intros k Hk; [reflexivity|].
  destruct k as [|k]; [simpl in Hk; lia|].
  simpl. apply IH. simpl in Hk. lia.
Qed.

Lemma replace_self (sp : string) : sp <> "" -> PyStr.replace sp sp "" = "".
Proof.
  destruct sp as [|a s]; [congruence|]. intros _.
  unfold PyStr.replace. cbn [PyStr.replace_from].
  rewrite prefix_refl. cbn [String.length Nat.sub]. rewrite Nat.sub_0_r.
  rewrite replace_from_skip by lia. reflexivity.
Qed.

Lemma level_start (sp : string) : sp <> "" -> level sp sp = 0.
Proof. intros H. unfold level. rewrite (replace_self sp H). reflexivity. Qed.

Lemma printed_cons (it : iteration) (tr : list iteration) :
  printed (it :: tr) = it_prints it ++ printed tr.
Proof. reflexivity. Qed.

(** X7. Whatever the start path -- the exclusion set is not applied to it
    -- if it can be listed then its level is 0 and the lines that follow the
    separator are those of its files, in the order of the listing, each
    behind exactly one bar, the last one with the elbow. *)
Theorem root_files_come_first (sp : string) (w : world) (es : entries) :
  scandir (root_frame sp w) = Listed es ->
  level sp sp = 0 /\
  exists rest,
    w_stdout (st_world (generate_tree sp w))
    = w_stdout w ++ header (w_cwd w) sp :: separator
      :: map (fun '(i, f) =>
                bar +++ (if (i =? Z.of_nat (length (walk_nondirs es)) - 1)%Z
                         then elbow else tee) +++ f)
             (enumerate (walk_nondirs es))
         ++ rest.
Proof.
  intros Hscan.
  assert (Hsp : sp <> "") by (apply (scandir_listed_top _ es Hscan)).
  split; [exact (level_start sp Hsp)|].
  rewrite generate_tree_stdout, generate_tree_spec. cbn [st_trace].
  rewrite (frame_trace_listed sp _ es Hscan), printed_cons, map_app.
  cbn [root_frame f_rel f_top listed_turn it_prints loop_body snd].
  rewrite String.eqb_refl. cbn [app]. rewrite map_map.
  eexists. do 3 f_equal. apply (f_equal2 (@app string)); [|reflexivity].
  apply map_ext. intros [i f]. cbn [snd]. unfold file_line. cbv zeta.
  rewrite (level_start sp Hsp). cbn [Nat.add PyStr.mul].
  rewrite append_assoc. reflexivity.
Qed.

Lemma root_files_come_first_witness :
  exists rest,
    w_stdout (st_world (generate_tree "node_modules"
                          (fresh_world "/home/u/proj" (Listed tree_mixed))))
    = [] ++ "Project Structure: node_modules" :: "========================================"
      :: ["│   └── setup.py"] ++ rest.
Proof.
  exact (proj2 (root_files_come_first "node_modules"
                  (fresh_world "/home/u/proj" (Listed tree_mixed)) tree_mixed eq_refl)).
Defined.

(** ** Started at the root of the file system *)

Lemma replace_sep_removes_all (s : string) :
  PyStr.count (PyStr.replace_from "/" "" 0 s) PosixPath.sep_char = 0.
Proof.
  induction s as [|a s IH]; [reflexivity|].
  cbn [PyStr.replace_from String.prefix String.length Nat.sub].
  destruct (ascii_dec "/" a) as [<-|Hne].
  - destruct s; exact IH.
  - cbn [PyStr.count]. rewrite IH.
    destruct (Ascii.eqb_spec a PosixPath.sep_char) as [->|]; [|reflexivity].
    exfalso. apply Hne. reflexivity.
Qed.

Lemma level_from_sep (root : string) : level "/" root = 0.
Proof. unfold level. apply replace_sep_removes_all. Qed.

(** X8. Started at ["/"], the removal of the start path from a path takes
    every separator away: the level of every directory is 0, so every
    directory line is printed without indentation and every file line
    behind one bar, whatever the depth. *)
Theorem start_at_slash_is_flat (w : world) (it : iteration) (es : entries) :
  In it (st_trace (generate_tree "/" w)) ->
  it_found it = Listed es ->
  level "/" (it_top it) = 0 /\
  it_prints it
  = (if String.eqb (it_top it) "/" then []
     else [(DirOf (it_rel it), tee +++ PosixPath.basename (it_top it) +++ "/")])
    ++ map (fun '(i, f) =>
              (FileOf (it_rel it) f,
               bar +++ (if (i =? Z.of_nat (length (walk_nondirs es)) - 1)%Z
                        then elbow else tee) +++ f))
           (enumerate (walk_nondirs es)).
Proof.
  intros Hin Hf. split; [apply level_from_sep|].
  pose proof (trace_inv "/" w it Hin) as (_ & _ & Hok).
  rewrite (turn_prints "/" it es Hok Hf).
  unfold dir_line, file_line. cbv zeta.
  rewrite !level_from_sep.
  reflexivity.
Qed.

Lemma start_at_slash_is_flat_witness :
  level "/" "/docs/img" = 0 /\
  it_prints (listed_turn "/" ["docs"; "img"] "/docs/img" [("logo.png", File)])
  = [(DirOf ["docs"; "img"], "├── img/");
     (FileOf ["docs"; "img"] "logo.png", "│   └── logo.png")].
Proof.
  assert (Hin : In (listed_turn "/" ["docs"; "img"] "/docs/img" [("logo.png", File)])
                   (st_trace (generate_tree "/" (fresh_world "/" (Listed tree_mixed)))))
    by (vm_compute; tauto).
  exact (start_at_slash_is_flat (fresh_world "/" (Listed tree_mixed))
           (listed_turn "/" ["docs"; "img"] "/docs/img" [("logo.png", File)])
           [("logo.png", File)] Hin eq_refl).
Defined.

(** ** What the output does not depend on *)










(** ** The header of the script *)

Lemma split_not_nil (s : string) (c : ascii) : PyStr.split s c <> [].
Proof.
  induction s as [|a s IH]; simpl; [discriminate|].
  destruct (Ascii.eqb a c); [discriminate|].
  destruct (PyStr.split s c); [congruence | discriminate].
Qed.

Lemma split_no_sep (s : string) (c : ascii) :
  PyStr.count s c = 0 -> PyStr.split s c = [s].
Proof.
  induction s as [|a s IH]; simpl; [reflexivity|].
  destruct (Ascii.eqb a c); simpl; [discriminate|].
  intros H. rewrite (IH H). reflexivity.
Qed.

Lemma split_append_sep (a b : string) (c : ascii) :
  PyStr.split (a +++ String c b) c = PyStr.split a c ++ PyStr.split b c.
Proof.
  induction a as [|x a IH].
  - simpl. rewrite Ascii.eqb_refl. reflexivity.
  - change (String x a +++ String c b) with (String x (a +++ String c b)).
    cbn [PyStr.split]. rewrite IH.
    destruct (Ascii.eqb x c); [reflexivity|].
    destruct (PyStr.split a c) as [|w ws] eqn:E; [|reflexivity].
    exfalso. exact (split_not_nil a c E).
Qed.

Lemma plain_name_spec (s : string) :
  plain_name s = true -> good_name s = true /\ s <> "." /\ s <> "..".
Proof.
  unfold plain_name. intros H.
  apply andb_prop in H. destruct H as [H H2].
  apply andb_prop in H. destruct H as [H0 H1].
  apply negb_true_iff, String.eqb_neq in H1.
  apply negb_true_iff, String.eqb_neq in H2. auto.
Qed.

Lemma join_cons (sep p : string) (ps : list string) :
  ps <> [] -> PyStr.join sep (p :: ps) = p +++ sep +++ PyStr.join sep ps.
Proof. destruct ps; [congruence | reflexivity]. Qed.

Lemma join_snoc (sep : string) (init : list string) (l : string) :
  init <> [] ->
  PyStr.join sep (init ++ [l]) = PyStr.join sep init +++ sep +++ l.
Proof.
  induction init as [|a init IH]; intros Hne; [congruence|].
  destruct init as [|b init]; [reflexivity|].
  change ((a :: b :: init) ++ [l]) with (a :: ((b :: init) ++ [l])).
  rewrite join_cons by (destruct init; discriminate).
  rewrite IH by discriminate.
  rewrite (join_cons sep a (b :: init)) by discriminate.
  rewrite !append_assoc. reflexivity.
Qed.

Lemma split_join (comps : list string) :
  comps <> [] ->
  Forall (fun s => plain_name s = true) comps ->
  PyStr.split (PyStr.join PosixPath.sep comps) PosixPath.sep_char = comps.
Proof.
  induction comps as [|a comps IH]; intros Hne Hall; [congruence|].
  inversion Hall as [|? ? Ha Hall']; subst.
  apply plain_name_spec in Ha. destruct Ha as (Ha & _).
  apply good_name_spec in Ha. destruct Ha as [_ Hc].
  destruct comps as [|b comps]; [apply split_no_sep, Hc|].
  rewrite join_cons by discriminate.
  unfold PosixPath.sep at 1.
  change ("/" +++ PyStr.join PosixPath.sep (b :: comps))
    with (String PosixPath.sep_char (PyStr.join PosixPath.sep (b :: comps))).
  rewrite split_append_sep, IH by (assumption || discriminate).
  rewrite (split_no_sep a _ Hc). reflexivity.
Qed.

Lemma norm_comps_plain (k : nat) (comps tail acc : list string) :
  Forall (fun s => plain_name s = true) comps ->
  PosixPath.norm_comps k (comps ++ tail) acc
  = PosixPath.norm_comps k tail (rev comps ++ acc).
Proof.
  intros Hall. revert acc. induction Hall as [|a comps Ha Hall IH]; intros acc;
    [reflexivity|].
  apply plain_name_spec in Ha. destruct Ha as (Ha & Hdot & Hdd).
  apply good_name_spec in Ha. destruct Ha as [Hne _].
  cbn [app PosixPath.norm_comps].
  apply String.eqb_neq in Hne, Hdot, Hdd. rewrite Hne, Hdot, Hdd.
  cbn [orb negb]. rewrite IH. cbn [rev]. rewrite <- app_assoc. reflexivity.
Qed.

Lemma startswith_join (comps : list string) :
  comps <> [] ->
  Forall (fun s => plain_name s = true) comps ->
  exists a rest,
    PyStr.join PosixPath.sep comps = String a rest /\ a <> PosixPath.sep_char.
Proof.
  intros Hne Hall. destruct comps as [|c comps]; [congruence|].
  inversion Hall as [|? ? Hc _]; subst.
  apply plain_name_spec in Hc. destruct Hc as (Hc & _).
  apply good_name_spec in Hc. destruct Hc as [Hcne Hcount].
  destruct c as [|a c]; [congruence|].
  assert (Ha : a <> PosixPath.sep_char).
  { intros ->. simpl in Hcount. discriminate Hcount. }
  destruct comps as [|b comps].
  - exists a, c. auto.
  - rewrite join_cons by discriminate. exists a. eexists. split; [reflexivity | exact Ha].
Qed.

Lemma absolute_snoc (init : list string) (l : string) :
  exists p, absolute (init ++ [l]) = p +++ PosixPath.sep +++ l.
Proof.
  unfold absolute. destruct init as [|a init].
  - exists "". reflexivity.
  - exists ("/" +++ PyStr.join PosixPath.sep (a :: init)).
    rewrite join_snoc by discriminate. rewrite !append_assoc. reflexivity.
Qed.

Lemma normpath_absolute_dot (comps : list string) :
  comps <> [] ->
  Forall (fun s => plain_name s = true) comps ->
  PosixPath.normpath (absolute comps +++ "/" +++ ".") = absolute comps.
Proof.
  intros Hne Hall.
  destruct (startswith_join comps Hne Hall) as (a & rest & Hj & Ha).
  assert (Hsplit : PyStr.split (absolute comps +++ "/" +++ ".") PosixPath.sep_char
                   = "" :: comps ++ ["."]).
  { unfold absolute.
    change ("/" +++ PyStr.join PosixPath.sep comps)
      with ("" +++ String PosixPath.sep_char (PyStr.join PosixPath.sep comps)).
    rewrite append_assoc.
    change (String PosixPath.sep_char (PyStr.join PosixPath.sep comps) +++ "/" +++ ".")
      with (String PosixPath.sep_char
              (PyStr.join PosixPath.sep comps +++ String PosixPath.sep_char ".")).
    rewrite !split_append_sep, (split_join comps Hne Hall). reflexivity. }
  assert (Hshape : absolute comps +++ "/" +++ "."
                   = String "/" (String a (rest +++ "/" +++ "."))).
  { unfold absolute. rewrite Hj. reflexivity. }
  unfold PosixPath.normpath. rewrite Hsplit. rewrite Hshape.
  cbn [String.eqb PyStr.startswith String.prefix].
  change (Ascii.eqb "/" PosixPath.sep_char) with true. cbv iota.
  destruct (ascii_dec "/" "/") as [_|C]; [|congruence].
  destruct (ascii_dec "/" a) as [E|_]; [exfalso; apply Ha; symmetry; exact E|].
  cbn [andb].
  cbn [PosixPath.norm_comps]. change ("" =? "")%string with true. cbn [orb].
  rewrite (norm_comps_plain 1 comps ["."] [] Hall).
  cbn [PosixPath.norm_comps]. change ("." =? "")%string with false.
  change ("." =? ".")%string with true. cbn [orb].
  rewrite app_nil_r, rev_involutive.
  change (PyStr.mul PosixPath.sep 1) with "/".
  unfold absolute. rewrite Hj. reflexivity.
Qed.

(** From a current directory given in normal form, the absolute path of
    [.] is the current directory. *)
Lemma abspath_dot_absolute (comps : list string) :
  comps <> [] ->
  Forall (fun s => plain_name s = true) comps ->
  PosixPath.abspath (absolute comps) "." = absolute comps.
Proof.
  intros Hne Hall.
  destruct (exists_last Hne) as (init & l & Hsplit).
  assert (Hl : good_name l = true).
  { rewrite Hsplit in Hall. apply Forall_app in Hall. destruct Hall as [_ Hl].
    inversion Hl as [|? ? Hp _]; subst. apply plain_name_spec in Hp. tauto. }
  destruct (absolute_snoc init l) as (p & Hp). rewrite <- Hsplit in Hp.
  unfold PosixPath.abspath. cbn [PyStr.startswith].
  change (Ascii.eqb "." PosixPath.sep_char) with false. cbv iota.
  assert (Hjoin : PosixPath.join (absolute comps) "." = absolute comps +++ "/" +++ ".").
  { unfold PosixPath.join. cbn [PyStr.startswith].
    change (Ascii.eqb "." PosixPath.sep_char) with false. cbv iota.
    rewrite Hp at 1 2. rewrite (endswith_join_good p l Hl).
    destruct (String.eqb_spec (p +++ PosixPath.sep +++ l) "") as [E|_]; [|reflexivity].
    exfalso. apply (append_not_empty_r p (PosixPath.sep +++ l)); [discriminate | exact E]. }
  rewrite Hjoin. apply normpath_absolute_dot; assumption.
Qed.

Lemma basename_absolute (init : list string) (l : string) :
  good_name l = true -> PosixPath.basename (absolute (init ++ [l])) = l.
Proof.
  intros Hl. destruct (absolute_snoc init l) as (p & ->).
  apply basename_append_sep. apply good_name_spec in Hl. tauto.
Qed.

(** X10. Run as a script, from a current directory [/c1/.../ck] of
    ordinary names, the first line printed is ["Project Structure: "]
    followed by [ck], the name of the current directory, and the second is
    the separator. *)
Theorem script_header_names_the_current_directory (w : world)
    (init : list string) (name : string) :
  Forall (fun s => plain_name s = true) (init ++ [name]) ->
  w_cwd w = absolute (init ++ [name]) ->
  header (w_cwd w) "." = "Project Structure: " +++ name /\
  exists rest,
    w_stdout (st_world (main w))
    = w_stdout w ++ ("Project Structure: " +++ name) :: separator :: rest.
Proof.
  intros Hall Hcwd.
  assert (Hname : good_name name = true).
  { apply Forall_app in Hall. destruct Hall as [_ Hl].
    inversion Hl as [|? ? Hp _]; subst. apply plain_name_spec in Hp. tauto. }
  assert (Hh : header (w_cwd w) "." = "Project Structure: " +++ name).
  { unfold header. rewrite Hcwd.
    rewrite abspath_dot_absolute by (assumption || (destruct init; discriminate)).
    rewrite (basename_absolute init name Hname).
    apply good_name_spec in Hname. destruct Hname as [Hne _].
    apply String.eqb_neq in Hne. rewrite Hne. reflexivity. }
  split; [exact Hh|].
  exists (map snd (printed (st_trace (main w)))).
  unfold main. rewrite generate_tree_stdout, Hh. reflexivity.
Qed.

Lemma script_header_names_the_current_directory_witness :
  header "/home/u/flight-app" "." = "Project Structure: flight-app".
Proof.
  exact (proj1 (script_header_names_the_current_directory
                  (fresh_world "/home/u/flight-app" (Listed tree_one_file))
                  ["home"; "u"] "flight-app"
                  ltac:(repeat constructor) eq_refl)).
Defined.

Lemma join_app (sep : string) (a b : list string) :
  a <> [] -> b <> [] ->
  PyStr.join sep (a ++ b) = PyStr.join sep a +++ sep +++ PyStr.join sep b.
Proof.
  intros Ha Hb. induction a as [|x a IH]; [congruence|].
  destruct a as [|y a].
  - cbn [app]. apply join_cons, Hb.
  - change ((x :: y :: a) ++ b) with (x :: ((y :: a) ++ b)).
    rewrite join_cons by discriminate. rewrite IH by discriminate.
    rewrite (join_cons sep x (y :: a)) by discriminate.
    rewrite !append_assoc. reflexivity.
Qed.

Lemma norm_comps_plain_all (k : nat) (comps : list string) :
  Forall (fun s => plain_name s = true) comps ->
  PosixPath.norm_comps k comps [] = comps.
Proof.
  intros Hall. rewrite <- (app_nil_r comps) at 1.
  rewrite (norm_comps_plain k comps [] [] Hall).
  cbn [PosixPath.norm_comps]. rewrite app_nil_r. apply rev_involutive.
Qed.

Lemma normpath_absolute (comps : list string) :
  comps <> [] ->
  Forall (fun s => plain_name s = true) comps ->
  PosixPath.normpath (absolute comps) = absolute comps.
Proof.
  intros Hne Hall.
  destruct (startswith_join comps Hne Hall) as (a & rest & Hj & Ha).
  assert (Hsplit : PyStr.split (absolute comps) PosixPath.sep_char = "" :: comps).
  { unfold absolute.
    change ("/" +++ PyStr.join PosixPath.sep comps)
      with ("" +++ String PosixPath.sep_char (PyStr.join PosixPath.sep comps)).
    rewrite split_append_sep, (split_join comps Hne Hall). reflexivity. }
  assert (Hshape : absolute comps = String "/" (String a rest)).
  { unfold absolute. rewrite Hj. reflexivity. }
  unfold PosixPath.normpath. rewrite Hsplit. rewrite Hshape.
  cbn [String.eqb PyStr.startswith String.prefix].
  change (Ascii.eqb "/" PosixPath.sep_char) with true. cbv iota.
  destruct (ascii_dec "/" "/") as [_|C]; [|congruence].
  destruct (ascii_dec "/" a) as [E|_]; [exfalso; apply Ha; symmetry; exact E|].
  cbn [andb].
  cbn [PosixPath.norm_comps]. change ("" =? "")%string with true. cbn [orb].
  rewrite (norm_comps_plain_all 1 comps Hall).
  change (PyStr.mul PosixPath.sep 1) with "/".
  rewrite Hj. reflexivity.
Qed.

Lemma join_absolute (ccomps scomps : list string) :
  Forall (fun s => plain_name s = true) ccomps ->
  scomps <> [] ->
  Forall (fun s => plain_name s = true) scomps ->
  PosixPath.join (absolute ccomps) (PyStr.join PosixPath.sep scomps)
  = absolute (ccomps ++ scomps).
Proof.
  intros Hc Hne Hs.
  destruct (startswith_join scomps Hne Hs) as (a & rest & Hj & Ha).
  unfold PosixPath.join. rewrite Hj. cbn [PyStr.startswith].
  apply Ascii.eqb_neq in Ha. rewrite Ha. rewrite <- Hj.
  destruct ccomps as [|c ccomps]; [reflexivity|].
  destruct (exists_last (l := c :: ccomps) ltac:(discriminate)) as (init & l & Hsplit).
  assert (Hl : good_name l = true).
  { rewrite Hsplit in Hc. apply Forall_app in Hc. destruct Hc as [_ Hl].
    inversion Hl as [|? ? Hp _]; subst. apply plain_name_spec in Hp. tauto. }
  destruct (absolute_snoc init l) as (p & Hp). rewrite <- Hsplit in Hp.
  rewrite Hp at 1 2. rewrite (endswith_join_good p l Hl).
  destruct (String.eqb_spec (p +++ PosixPath.sep +++ l) "") as [E|_].
  - exfalso. apply (append_not_empty_r p (PosixPath.sep +++ l)); [discriminate | exact E].
  - cbn [orb]. unfold absolute.
    rewrite (join_app PosixPath.sep (c :: ccomps) scomps) by (assumption || discriminate).
    rewrite !append_assoc. reflexivity.
Qed.

(** X11. For a relative start path made of ordinary names, the header
    shows the last of them, whatever the current directory (given in normal
    form). *)
Theorem header_names_the_last_component (w : world) (ccomps scomps : list string)
    (name : string) :
  Forall (fun s => plain_name s = true) ccomps ->
  Forall (fun s => plain_name s = true) (scomps ++ [name]) ->
  w_cwd w = absolute ccomps ->
  exists rest,
    w_stdout (st_world (generate_tree (PyStr.join PosixPath.sep (scomps ++ [name])) w))
    = w_stdout w ++ ("Project Structure: " +++ name) :: separator :: rest.
Proof.
  intros Hc Hs Hcwd.
  assert (Hname : good_name name = true).
  { apply Forall_app in Hs. destruct Hs as [_ Hl].
    inversion Hl as [|? ? Hp _]; subst. apply plain_name_spec in Hp. tauto. }
  exists (map snd (printed (st_trace (generate_tree
                                      (PyStr.join PosixPath.sep (scomps ++ [name])) w)))).
  rewrite generate_tree_stdout. do 2 f_equal.
  unfold header, PosixPath.abspath. rewrite Hcwd.
  destruct (startswith_join (scomps ++ [name]) ltac:(destruct scomps; discriminate) Hs)
    as (a & rest & Hj & Ha).
  assert (Hst : PyStr.startswith (PyStr.join PosixPath.sep (scomps ++ [name]))
                                 PosixPath.sep_char = false).
  { rewrite Hj. cbn [PyStr.startswith]. apply Ascii.eqb_neq, Ha. }
  rewrite Hst.
  rewrite join_absolute by (assumption || (destruct scomps; discriminate)).
  rewrite normpath_absolute
    by (try (apply Forall_app; split; assumption); destruct ccomps; destruct scomps; discriminate).
  rewrite app_assoc, (basename_absolute (ccomps ++ scomps) name Hname).
  apply good_name_spec in Hname. destruct Hname as [Hne _].
  apply String.eqb_neq in Hne. rewrite Hne. reflexivity.
Qed.

Lemma header_names_the_last_component_witness :
  exists rest,
    w_stdout (st_world (generate_tree "apps/flight-app"
                          (fresh_world "/home/u" (Listed tree_one_file))))
    = [] ++ "Project Structure: flight-app" :: separator :: rest.
Proof.
  exact (header_names_the_last_component
           (fresh_world "/home/u" (Listed tree_one_file))
           ["home"; "u"] ["apps"] "flight-app"
           ltac:(repeat constructor) ltac:(repeat constructor) eq_refl).
Defined.

(** X12. For an absolute start path [/c1/.../ck] of ordinary names, the
    header shows [ck]; the current directory plays no part. *)
Theorem header_of_an_absolute_start_path (w : world) (init : list string)
    (name : string) :
  Forall (fun s => plain_name s = true) (init ++ [name]) ->
  exists rest,
    w_stdout (st_world (generate_tree (absolute (init ++ [name])) w))
    = w_stdout w ++ ("Project Structure: " +++ name) :: separator :: rest.
Proof.
  intros Hs.
  assert (Hname : good_name name = true).
  { apply Forall_app in Hs. destruct Hs as [_ Hl].
    inversion Hl as [|? ? Hp _]; subst. apply plain_name_spec in Hp. tauto. }
  exists (map snd (printed (st_trace (generate_tree (absolute (init ++ [name])) w)))).
  rewrite generate_tree_stdout. do 2 f_equal.
  unfold header, PosixPath.abspath.
  change (PyStr.startswith (absolute (init ++ [name])) PosixPath.sep_char) with true.
  cbv iota.
  rewrite normpath_absolute by (assumption || (destruct init; discriminate)).
  rewrite (basename_absolute init name Hname).
  apply good_name_spec in Hname. destruct Hname as [Hne _].
  apply String.eqb_neq in Hne. rewrite Hne. reflexivity.
Qed.

Lemma header_of_an_absolute_start_path_witness :
  exists rest,
    w_stdout (st_world (generate_tree "/srv/flight-app"
                          (fresh_world "/home/u" (Listed tree_one_file))))
    = [] ++ "Project Structure: flight-app" :: separator :: rest.
Proof.
  exact (header_of_an_absolute_start_path
           (fresh_world "/home/u" (Listed tree_one_file))
           ["srv"] "flight-app" ltac:(repeat constructor)).
Defined.
